(** * yang: the command-line driver of goyang (src/yang.go)

  A shallow embedding of [register], [exitIfError], [stop] and [main],
  together with the properties of the orchestration pipeline: format
  registry, input-mode selection, loading, semantic processing, entry
  resolution and dispatch.

  The process is modelled as a computation that appends observable
  events to a log and may terminate early through [os.Exit]; the yang
  library ([pkg/yang]) and the operating system are parameters. *)

From Stdlib Require Import Ascii String.
From stdpp Require Import gmap strings list sorting.

Local Open Scope string_scope.
Local Open Scope list_scope.

(** ** Strings as the Go standard library sees them *)

Module GoStrings.

(** [strings.HasSuffix(s, suffix)]:
    [len(s) >= len(suffix) && s[len(s)-len(suffix):] == suffix]. *)
Definition HasSuffix (s suffix : string) : bool :=
  (String.length suffix <=? String.length s)%nat
  && String.eqb
       (String.substring (String.length s - String.length suffix)
                         (String.length suffix) s)
       suffix.

(** [strings.Join(elems, sep)]. *)
Definition Join (elems : list string) (sep : string) : string :=
  String.concat sep elems.

(** The order of Go's [<] on strings: bytewise lexicographic. *)
Definition le (s t : string) : Prop := String.leb s t = true.
Definition lt (s t : string) : Prop := String.ltb s t = true.

#[global] Instance le_dec : RelDecision le.
Proof. intros s t. unfold le. apply _. Defined.

#[global] Instance lt_dec : RelDecision lt.
Proof. intros s t. unfold lt. apply _. Defined.

(** [sort.Strings(x)]: sorts [x] in increasing order.  Any sorting
    algorithm yields the same slice, see [sort_Strings_unique]. *)
Definition sort_Strings (x : list string) : list string :=
  merge_sort le x.

End GoStrings.

Import GoStrings.

(** ** The format registry (yang.go, lines 51-63) *)

Section Registry.

(** [Entry] stands for the values of type [*yang.Entry]. *)
Variable Entry : Type.

(** [type formatter struct]: [f] is given the writer and the entries;
    what it writes to that writer is its result here.  [f] stands for a
    func value that is not nil and that returns: a nil [f], or one that
    panics or exits, is outside this model. *)
Record formatter : Type := Formatter {
  name : string;
  f : list Entry -> string;
  help : string
}.

(** [var formatters = map[string]*formatter{}] *)
Definition formatters_init : gmap string formatter := ∅.

(** [func register(f *formatter) { formatters[f.name] = f }] *)
Definition register (fm : formatter) (formatters : gmap string formatter)
  : gmap string formatter :=
  <[name fm := fm]> formatters.

(** Every registered formatter is stored under its own name as long as
    [register] is the only way into the registry. *)
Definition keyed_by_name (formatters : gmap string formatter) : Prop :=
  forall n fm, formatters !! n = Some fm -> name fm = n.

End Registry.

Arguments Formatter {Entry} _ _ _.
Arguments name {Entry} _.
Arguments f {Entry} _.
Arguments help {Entry} _.
Arguments register {Entry} _ _.
Arguments formatters_init {Entry}.
Arguments keyed_by_name {Entry} _.

(** ** The collaborators of [main] *)

(** A Go [error], represented by the text of its [Error()] method. *)
Definition error : Type := string.

Definition nl : string := String "010" EmptyString.

(** The part of [github.com/openconfig/goyang/pkg/yang] that [main] calls.
  [Modules] is the state of a [*yang.Modules] object, [Module] a non-nil
  [*yang.Module] and [Entry] a [*yang.Entry].  The methods that mutate
  the receiver return its new state. *)
Class YangLib (Modules Module Entry : Type) : Type := {
  (** [m.Name] *)
  Name : Module -> string;
  (** [yang.NewModules()] *)
  NewModules : Modules;
  (** [ms.Parse(data, name)] *)
  Parse : string -> string -> Modules -> Modules * option error;
  (** [ms.Read(name)] *)
  Read : string -> Modules -> Modules * option error;
  (** [ms.Process()] *)
  Process : Modules -> Modules * list error;
  (** the values that the one loop [range ms.Modules] of a run yields, in
      the order it yields them; Go does not fix the order in which a map
      is ranged over, so nothing relates this order to the order in which
      the modules were loaded *)
  range_Modules : Modules -> list Module;
  (** [yang.ToEntry(m)]; [None] is the nil pointer *)
  ToEntry : option Module -> Entry;
  (** [yang.GetModule(name, sources...)] *)
  GetModule : string -> list string -> Entry * list error
}.

(** The operating system, as far as [main] observes it. *)
Record OS : Type := {
  (** the error of [os.Create(name)], if any *)
  os_Create : string -> option error;
  (** [ioutil.ReadAll(os.Stdin)] *)
  ReadAll_Stdin : string * option error
}.

(** The command line after [getopt.Parse()]: the values stored through
  [--format], [--trace] and [--help], and [getopt.Args()].  ([--path]
  only fills [yang.Path], which the library reads.) *)
Record Flags : Type := {
  opt_format : option string;
  opt_trace : string;
  opt_help : bool;
  opt_args : list string
}.

(** ** Processes: an event log, the [stop] variable, deferred calls *)

Section Process.

Context {Entry : Type}.

(** What a run does to the outside world, in order. *)
Inductive event : Type :=
| Stderr (text : string)
| PrintUsage
| Create (path : string) (err : option error)
| trace_Start
| trace_Stop
| ReadStdin (err : option error)
| CallParse (src : string) (err : option error)
| CallRead (file : string) (err : option error)
| CallGetModule (module : string) (sources : list string) (errs : list error)
| CallProcess (errs : list error)
| CallWrite (e : Entry)
| CallFormatter (fm : formatter Entry) (entries : list Entry).

(** The two values the variable [stop] takes: [os.Exit], and
    [func(c int) { trace.Stop(); os.Exit(c) }]. *)
Inductive stop_fn : Type := os_Exit | trace_Stop_then_Exit.

(** The one deferred closure of [main]: [func() { trace.Stop() }]. *)
Inductive thunk : Type := defer_trace_Stop.

Record proc : Type := {
  stop_var : stop_fn;
  defers : list thunk
}.

Inductive outcome (A : Type) : Type :=
| Done (a : A)
| Exit (code : Z)
| Panic.

Definition M (A : Type) : Type := proc -> list event * proc * outcome A.

#[global] Instance M_ret : MRet M := fun A a s => ([], s, Done A a).

#[global] Instance M_bind : MBind M := fun A B k m s =>
  match m s with
  | (l1, s1, Done _ a) =>
      match k a s1 with (l2, s2, o) => (l1 ++ l2, s2, o) end
  | (l1, s1, Exit _ c) => (l1, s1, Exit B c)
  | (l1, s1, Panic _) => (l1, s1, Panic B)
  end.

Definition emit (e : event) : M unit := fun s => ([e], s, Done unit tt).

(** [os.Exit(c)]: the process ends at once; deferred calls do not run. *)
Definition Exit_now (c : Z) : M unit := fun s => ([], s, Exit unit c).

(** A nil-pointer dereference. *)
Definition panic {A} : M A := fun s => ([], s, Panic A).

Definition set_stop (v : stop_fn) : M unit := fun s =>
  ([], {| stop_var := v; defers := defers s |}, Done unit tt).

Definition defer (t : thunk) : M unit := fun s =>
  ([], {| stop_var := stop_var s; defers := t :: defers s |}, Done unit tt).

(** [stop(c)]: calls whatever the variable [stop] holds. *)
Definition stop (c : Z) : M unit := fun s =>
  match stop_var s with
  | os_Exit => Exit_now c s
  | trace_Stop_then_Exit => (emit trace_Stop ;; Exit_now c) s
  end.

(** [for _, x := range xs { body(x) }] *)
Fixpoint for_range {A} (xs : list A) (body : A -> M unit) : M unit :=
  match xs with
  | [] => mret tt
  | x :: rest => body x ;; for_range rest body
  end.

(** How a process ends. *)
Inductive termination : Type :=
| Exited (code : Z)
| Returned
| Panicked.

(** The exit status the parent process sees. *)
Definition status (t : termination) : Z :=
  match t with
  | Exited c => c
  | Returned => 0
  | Panicked => 2
  end.

Definition run_thunk (t : thunk) : list event :=
  match t with defer_trace_Stop => [trace_Stop] end.

(** Runs a [main] function: [stop] starts as [os.Exit]; when the
    function returns or panics its deferred calls run, last first. *)
Definition run (m : M unit) : list event * termination :=
  match m {| stop_var := os_Exit; defers := [] |} with
  | (log, s, Done _ _) => (log ++ flat_map run_thunk (defers s), Returned)
  | (log, s, Exit _ c) => (log, Exited c)
  | (log, s, Panic _) => (log ++ flat_map run_thunk (defers s), Panicked)
  end.

End Process.

Arguments event : clear implicits.
Arguments M : clear implicits.
Arguments Done {A} _.
Arguments Exit {A} _.
Arguments Panic {A}.

(** ** The program (yang.go, lines 65-175) *)

Section Program.

Context {Modules Module Entry : Type} {lib : YangLib Modules Module Entry}.

(** The package variable [formatters] when [main] starts, and the
    operating system the process runs on. *)
Variable formatters : gmap string (formatter Entry).
Variable os : OS.

(** [exitIfError] (lines 67-74). *)
Definition exitIfError (errs : list error) : M Entry unit :=
  if (0 <? length errs)%nat then
    for_range errs (fun err => emit (Stderr (err +:+ nl))) ;;
    stop 1
  else mret tt.

(** Lines 80-84: the keys of [formatters], sorted. *)
Definition registered_formats : list string :=
  sort_Strings (map_to_list formatters).*1.

(** Lines 95-104. *)
Definition start_trace (traceP : string) : M Entry unit :=
  if negb (String.eqb traceP "") then
    match os_Create os traceP with
    | Some err =>
        emit (Create traceP (Some err)) ;;
        emit (Stderr (err +:+ nl)) ;;
        Exit_now 1
    | None =>
        emit (Create traceP None) ;;
        emit trace_Start ;;
        set_stop trace_Stop_then_Exit ;;
        defer defer_trace_Stop
    end
  else mret tt.

(** Lines 106-114. *)
Definition show_help (formats : list string) : M Entry unit :=
  emit PrintUsage ;;
  emit (Stderr (nl +:+ "Formats:" +:+ nl)) ;;
  for_range formats (fun fn =>
    match formatters !! fn with
    | Some fm => emit (Stderr ("    " +:+ name fm +:+ " - " +:+ help fm +:+ nl))
    | None => panic
    end) ;;
  stop 0.

(** Lines 116-120. *)
Definition check_format (format : string) (formats : list string)
  : M Entry unit :=
  match formatters !! format with
  | None =>
      emit (Stderr (format +:+ ": invalid format.  Choices are "
                      +:+ Join formats ", " +:+ nl)) ;;
      stop 1
  | Some _ => mret tt
  end.

(** Lines 125-128: the named-module request. *)
Definition display_module (module : string) (sources : list string)
  : M Entry unit :=
  let '(e, errs) := GetModule module sources in
  emit (CallGetModule module sources errs) ;;
  exitIfError errs ;;
  emit (CallWrite e).

(** Lines 136-145: no arguments, standard input is parsed. *)
Definition read_stdin (ms : Modules) : M Entry Modules :=
  let '(data, err) := ReadAll_Stdin os in
  emit (ReadStdin err) ;;
  '(ms, err) ← match err with
               | None =>
                   let '(ms', err') := Parse data "<STDIN>" ms in
                   emit (CallParse "<STDIN>" err') ;;
                   mret (ms', err')
               | Some _ => mret (ms, err)
               end;
  match err with
  | Some e => emit (Stderr (e +:+ nl)) ;; stop 1 ;; mret ms
  | None => mret ms
  end.

(** Lines 147-152: every named file is read; an error is printed and
    the loop goes on with the next file. *)
Fixpoint read_files (files : list string) (ms : Modules)
  : M Entry Modules :=
  match files with
  | [] => mret ms
  | file :: rest =>
      let '(ms', err) := Read file ms in
      emit (CallRead file err) ;;
      match err with
      | Some e => emit (Stderr (e +:+ nl)) ;; read_files rest ms'
      | None => read_files rest ms'
      end
  end.

(** Lines 159-167: one step of the loop over [ms.Modules]. *)
Definition keep_first (acc : gmap string Module * list string) (m : Module)
  : gmap string Module * list string :=
  let '(mods, names) := acc in
  match mods !! Name m with
  | None => (<[Name m := m]> mods, names ++ [Name m])
  | Some _ => (mods, names)
  end.

Definition top_modules (ms_Modules : list Module)
  : gmap string Module * list string :=
  foldl keep_first (∅, []) ms_Modules.

(** Lines 159-172: the entries of the top level modules. *)
Definition top_entries (ms_Modules : list Module) : list Entry :=
  let '(mods, names) := top_modules ms_Modules in
  let names := sort_Strings names in
  (fun n => ToEntry (mods !! n)) <$> names.

(** Lines 134-174: the files, or standard input, are read, processed
    and displayed. *)
Definition display_files (format : string) (files : list string)
  : M Entry unit :=
  let ms := NewModules in
  ms ← (if (length files =? 0)%nat then read_stdin ms else mret ms);
  ms ← read_files files ms;
  let '(ms, errs) := Process ms in
  emit (CallProcess errs) ;;
  exitIfError errs ;;
  let entries := top_entries (range_Modules ms) in
  match formatters !! format with
  | Some fm => emit (CallFormatter fm entries)
  | None => panic
  end.

(** [main] (lines 78-175). *)
Definition main (flags : Flags) : M Entry unit :=
  let format := "tree" in
  let formats := registered_formats in
  let format := default format (opt_format flags) in
  let traceP := opt_trace flags in
  let help := opt_help flags in
  start_trace traceP ;;
  (if help then show_help formats else mret tt) ;;
  check_format format formats ;;
  let files := opt_args flags in
  match files with
  | files_0 :: files_1 =>
      if negb (HasSuffix files_0 ".yang")
      then display_module files_0 files_1
      else display_files format files
  | [] => display_files format files
  end.

End Program.

(** ** What a log shows *)

Section Observations.

Context {Entry : Type}.

(** The calls that are handed [os.Stdout]. *)
Definition writes_Stdout (e : event Entry) : bool :=
  match e with
  | CallWrite _ | CallFormatter _ _ => true
  | _ => false
  end.

Definition outputs (log : list (event Entry)) : list (event Entry) :=
  filter (fun e => writes_Stdout e = true) log.

(** The text written to [os.Stderr] by [fmt.Fprintln] and [fmt.Fprintf]. *)
Definition stderr_of (log : list (event Entry)) : list string :=
  flat_map (fun e => match e with Stderr t => [t] | _ => [] end) log.

(** Where a run takes its input from. *)
Inductive source : Type :=
| FromStdin
| FromFile (file : string)
| FromModule (module : string) (sources : list string).

Definition source_of (e : event Entry) : list source :=
  match e with
  | ReadStdin _ => [FromStdin]
  | CallRead file _ => [FromFile file]
  | CallGetModule module sources _ => [FromModule module sources]
  | _ => []
  end.

Definition sources_of (log : list (event Entry)) : list source :=
  flat_map source_of log.

(** The kind of an event, without its arguments. *)
Inductive tag : Type :=
| tStderr | tPrintUsage | tCreate | tStart | tStop | tReadStdin | tParse
| tRead | tGetModule | tProcess | tWrite | tFormatter.

#[global] Instance tag_eq_dec : EqDecision tag.
Proof. solve_decision. Defined.

Definition tag_of (e : event Entry) : tag :=
  match e with
  | Stderr _ => tStderr
  | PrintUsage => tPrintUsage
  | Create _ _ => tCreate
  | trace_Start => tStart
  | trace_Stop => tStop
  | ReadStdin _ => tReadStdin
  | CallParse _ _ => tParse
  | CallRead _ _ => tRead
  | CallGetModule _ _ _ => tGetModule
  | CallProcess _ => tProcess
  | CallWrite _ => tWrite
  | CallFormatter _ _ => tFormatter
  end.

(** Every event of the log is of one of the kinds [ts]. *)
Definition tags_in (ts : list tag) (log : list (event Entry)) : Prop :=
  Forall (fun e => tag_of e ∈ ts) log.

(** The line [fmt.Fprintln(os.Stderr, err)] writes. *)
Definition error_line (err : error) : event Entry := Stderr (err +:+ nl).

(** The line of the help text for one formatter. *)
Definition help_line (fm : formatter Entry) : event Entry :=
  Stderr ("    " +:+ name fm +:+ " - " +:+ help fm +:+ nl).

(** The message for a format that is not registered. *)
Definition invalid_format_line (format : string) (formats : list string)
  : event Entry :=
  Stderr (format +:+ ": invalid format.  Choices are "
            +:+ Join formats ", " +:+ nl).

End Observations.

(** The three requests of the specification's input resolver, in its
  words: a first argument that does not end with the schema file
  extension names a module and the remaining ones are auxiliary files;
  no argument means standard input; otherwise the arguments are files. *)
Inductive request : Type :=
| NamedModule (module : string) (auxiliary : list string)
| StandardInput
| FileList (files : list string).

Definition spec_request (args : list string) : request :=
match args with
| [] => StandardInput
| first :: rest =>
    if HasSuffix first ".yang" then FileList args else NamedModule first rest
end.

(** ** The state of a run when it reaches each stage *)

Section Stages.

Context {Modules Module Entry : Type} {lib : YangLib Modules Module Entry}.
Variable formatters : gmap string (formatter Entry).
Variable os : OS.

(** The format a run asks for. *)
Definition requested_format (flags : Flags) : string :=
  default "tree" (opt_format flags).

(** No trace was asked for, or its file could be created. *)
Definition trace_ok (flags : Flags) : Prop :=
  opt_trace flags = "" ∨ os_Create os (opt_trace flags) = None.

Definition traced (flags : Flags) : bool :=
  negb (String.eqb (opt_trace flags) "").

(** The run gets as far as looking at its arguments. *)
Definition reaches_input (flags : Flags) : Prop :=
  trace_ok flags ∧ opt_help flags = false
  ∧ is_Some (formatters !! requested_format flags).

(** The first module of that name that [range ms.Modules] yields. *)
Definition first_named (n : string) (ms_Modules : list Module)
  : option Module :=
  List.find (fun m => String.eqb (Name m) n) ms_Modules.

(** The names of the top level modules as line 168 leaves them. *)
Definition top_names (ms_Modules : list Module) : list string :=
  sort_Strings (top_modules ms_Modules).2.

(** The model set after the files were read, and what the loop did. *)
Definition files_loaded (files : list string) (ms : Modules) : Modules :=
  foldl (fun ms file => (Read file ms).1) ms files.

Fixpoint read_log (files : list string) (ms : Modules)
  : list (event Entry) :=
  match files with
  | [] => []
  | file :: rest =>
      CallRead file (Read file ms).2
      :: match (Read file ms).2 with
         | Some e => [error_line e]
         | None => []
         end
      ++ read_log rest (Read file ms).1
  end.

(** The model set and the error after standard input was read. *)
Definition stdin_loaded : Modules * option error :=
  match (ReadAll_Stdin os).2 with
  | None => Parse (ReadAll_Stdin os).1 "<STDIN>" NewModules
  | Some e => (NewModules, Some e)
  end.

Definition stdin_log : list (event Entry) :=
  ReadStdin (ReadAll_Stdin os).2
  :: match (ReadAll_Stdin os).2 with
     | None => [CallParse "<STDIN>" stdin_loaded.2]
     | Some _ => []
     end.

(** The model set of a file-list or stdin run before it is processed,
    and after. *)
Definition loaded (files : list string) : Modules :=
  match files with
  | [] => stdin_loaded.1
  | _ => files_loaded files NewModules
  end.

Definition processed (files : list string) : Modules :=
  (Process (loaded files)).1.

Definition process_errors (files : list string) : list error :=
  (Process (loaded files)).2.

(** A run of the program: what it does, and how it ends. *)
Definition yang (flags : Flags) : list (event Entry) * termination :=
  run (main formatters os flags).

(** The part of [main] after the trace was set up. *)
Definition after_trace (flags : Flags) : M Entry unit :=
  (if opt_help flags then show_help formatters (registered_formats formatters)
   else mret tt) ;;
  check_format formatters (requested_format flags)
               (registered_formats formatters) ;;
  match opt_args flags with
  | files_0 :: files_1 =>
      if negb (HasSuffix files_0 ".yang")
      then display_module files_0 files_1
      else display_files formatters os (requested_format flags)
                         (opt_args flags)
  | [] => display_files formatters os (requested_format flags)
                        (opt_args flags)
  end.

(** The state of the process once the trace was set up. *)
Definition proc_of (tr : bool) : proc :=
  if tr then {| stop_var := trace_Stop_then_Exit;
                defers := [defer_trace_Stop] |}
  else {| stop_var := os_Exit; defers := [] |}.

(** What a call of [stop] does before the process ends. *)
Definition stopping (s : proc) : list (event Entry) :=
  match stop_var s with
  | os_Exit => []
  | trace_Stop_then_Exit => [trace_Stop]
  end.

(** The lines of the help text, one per format. *)
Definition help_lines (formats : list string) : list (event Entry) :=
  flat_map (fun fn => match formatters !! fn with
                      | Some fm => [help_line fm]
                      | None => []
                      end) formats.

(** What loading does in a file-list or stdin run. *)
Definition load_log (files : list string) : list (event Entry) :=
  match files with
  | [] => stdin_log
  | _ => read_log files NewModules
  end.

(** What the part of [main] after the trace set-up does, stage by stage:
    the events up to the point where it returns or calls [stop], and the
    status [stop] is called with, if it is. *)
Definition body (flags : Flags) : list (event Entry) * option Z :=
  if opt_help flags then
    (PrintUsage :: Stderr (nl +:+ "Formats:" +:+ nl)
       :: help_lines (registered_formats formatters), Some 0%Z)
  else
    match formatters !! requested_format flags with
    | None =>
        ([invalid_format_line (requested_format flags)
            (registered_formats formatters)], Some 1%Z)
    | Some fm =>
        match spec_request (opt_args flags) with
        | NamedModule module aux =>
            match (GetModule module aux).2 with
            | [] => ([CallGetModule module aux [];
                      CallWrite (GetModule module aux).1], None)
            | errs => (CallGetModule module aux errs :: (error_line <$> errs),
                       Some 1%Z)
            end
        | _ =>
            match opt_args flags, stdin_loaded.2 with
            | [], Some e => (stdin_log ++ [error_line e], Some 1%Z)
            | files, _ =>
                match process_errors files with
                | [] => (load_log files
                           ++ [CallProcess [];
                               CallFormatter fm
                                 (top_entries (range_Modules (processed files)))],
                         None)
                | errs => (load_log files
                             ++ CallProcess errs :: (error_line <$> errs),
                           Some 1%Z)
                end
            end
        end
    end.

Definition trace_started (flags : Flags) : list (event Entry) :=
  if traced flags then [Create (opt_trace flags) None; trace_Start] else [].

Definition trace_stopped (flags : Flags) : list (event Entry) :=
  if traced flags then [trace_Stop] else [].

End Stages.

(** ** The schema library as the specification describes it *)

Section SpecLibrary.

Context {Module Entry : Type}.

(** The name of a module, the tree builder and the nil entry. *)
Variable Name_ : Module -> string.
Variable ToEntry_ : option Module -> Entry.
Variable nil_Entry : Entry.

(** What reading a named source yields: an error, or the modules the
    source defines.  [parse] is the same for a text given a name,
    [process] the error batch of semantic processing and [not_found]
    the error of a name that cannot be resolved. *)
Variable fs : string -> error + list Module.
Variable parse : string -> string -> error + list Module.
Variable process : list Module -> list error.
Variable not_found : string -> error.

(** Modelled from the spec: the model set of [pkg/yang], which is not
    part of yang.go.  It owns the parsed Module records, here in the
    order they were loaded. *)
Definition spec_Modules : Type := list Module.

(** Modelled from the spec: the loader's [Read] of [pkg/yang].  A source
    that cannot be read or parsed is skipped (it contributes nothing);
    the modules of any other source are added to the model set. *)
Definition spec_Read (file : string) (ms : spec_Modules)
  : spec_Modules * option error :=
  match fs file with
  | inl e => (ms, Some e)
  | inr mods => (ms ++ mods, None)
  end.

(** The modules that a source contributes to the model set. *)
Definition modules_of (file : string) : list Module :=
  match fs file with
  | inr mods => mods
  | inl _ => []
  end.

(** Modelled from the spec: [Parse] of [pkg/yang], the same for a text
    that is already in memory. *)
Definition spec_Parse (data src : string) (ms : spec_Modules)
  : spec_Modules * option error :=
  match parse data src with
  | inl e => (ms, Some e)
  | inr mods => (ms ++ mods, None)
  end.

(** Modelled from the spec: [Process] of [pkg/yang], the single
    semantic processing call; it reports a batch of errors. *)
Definition spec_Process (ms : spec_Modules) : spec_Modules * list error :=
  (ms, process ms).

(** Modelled from the spec: the lookup of a module by name in the
    accumulated model set. *)
Definition spec_find (module : string) (ms : spec_Modules) : option Module :=
  List.find (fun m => String.eqb (Name_ m) module) ms.

(** Modelled from the spec: [GetModule] of [pkg/yang].  The auxiliary
    files are parsed first, the named module is resolved against the
    accumulated model set, the default file MODULES.yang is loaded if
    the name was not found among the auxiliary files, and a name that
    is still not found is an error. *)
Definition spec_GetModule (module : string) (sources : list string)
  : Entry * list error :=
  let ms := foldl (fun ms src => (spec_Read src ms).1) [] sources in
  match spec_find module ms with
  | Some m => (ToEntry_ (Some m), [])
  | None =>
      let ms := (spec_Read "MODULES.yang" ms).1 in
      match spec_find module ms with
      | Some m => (ToEntry_ (Some m), [])
      | None => (nil_Entry, [not_found module])
      end
  end.

(** Modelled from the spec: the library built from the parts above.  Its
    loop over the model set meets the modules in the order of loading,
    which is one of the orders a run may see. *)
Definition spec_lib : YangLib spec_Modules Module Entry := {|
  Name := Name_;
  NewModules := [];
  Parse := spec_Parse;
  Read := spec_Read;
  Process := spec_Process;
  range_Modules := fun ms => ms;
  ToEntry := ToEntry_;
  GetModule := spec_GetModule
|}.

End SpecLibrary.

(** ** A small world to run the program in *)

Module Demo.

Record module : Type := { m_name : string; m_file : string }.

(** An entry is shown by the name of its module and the file it is from. *)
Definition entry : Type := string.

Definition to_entry (m : option module) : entry :=
  match m with
  | Some m => m_name m +:+ "@" +:+ m_file m
  | None => "<nil>"
  end.

Definition fs (file : string) : error + list module :=
  if String.eqb file "a.yang" then
    inr [ {| m_name := "beta"; m_file := "a.yang" |};
          {| m_name := "alpha"; m_file := "a.yang" |} ]
  else if String.eqb file "b.yang" then
    inr [ {| m_name := "alpha"; m_file := "b.yang" |} ]
  else if String.eqb file "broken.yang" then
    inr [ {| m_name := "broken"; m_file := "broken.yang" |} ]
  else if String.eqb file "MODULES.yang" then
    inr [ {| m_name := "gamma"; m_file := "MODULES.yang" |} ]
  else inl ("open " +:+ file +:+ ": no such file or directory").

Definition parse (data src : string) : error + list module :=
  if String.eqb data "module delta {}" then
    inr [ {| m_name := "delta"; m_file := src |} ]
  else inl (src +:+ ": syntax error").

(** A module named broken does not pass semantic processing. *)
Definition process (ms : list module) : list error :=
  flat_map (fun m => if String.eqb (m_name m) "broken"
                     then ["broken: unknown import"; "broken: unknown type"]
                     else []) ms.

Definition not_found (module : string) : error :=
  module +:+ ": module not found".

Definition lib : YangLib (list module) module entry :=
  spec_lib m_name to_entry "<nil>" fs parse process not_found.

Definition tree : formatter entry :=
  Formatter "tree" (fun es => Join es nl) "display in a tree format".

Definition types : formatter entry :=
  Formatter "types" (fun es => Join es ", ") "display found types".

(** A second formatter registered under the name of [tree]. *)
Definition tree' : formatter entry :=
  Formatter "tree" (fun es => Join es "; ") "display in another format".

Definition formatters : gmap string (formatter entry) :=
  register types (register tree formatters_init).

(** Only files below /tmp can be created; standard input holds [data]. *)
Definition os (data : string) (err : option error) : OS := {|
  os_Create := fun file =>
    if String.prefix "/tmp/" file then None
    else Some ("open " +:+ file +:+ ": permission denied");
  ReadAll_Stdin := (data, err)
|}.

Definition flags (format : option string) (trace : string) (help : bool)
           (args : list string) : Flags :=
  {| opt_format := format; opt_trace := trace; opt_help := help;
     opt_args := args |}.

Definition demo (data : string) (err : option error) (fl : Flags)
  : list (event entry) * termination :=
  yang (lib := lib) formatters (os data err) fl.

End Demo.

(** ** Two more libraries for the small world *)

Module DemoLibraries.

(** The library of [Demo] in a run whose loop over [ms.Modules] meets the
    modules that were added last first. *)
Definition lib_last_first : YangLib (list Demo.module) Demo.module Demo.entry := {|
  Name := Demo.m_name;
  NewModules := [];
  Parse := Parse (YangLib := Demo.lib);
  Read := Read (YangLib := Demo.lib);
  Process := Process (YangLib := Demo.lib);
  range_Modules := fun ms => reverse ms;
  ToEntry := Demo.to_entry;
  GetModule := GetModule (YangLib := Demo.lib)
|}.

(** A [Read] that keeps the modules of a file that come before the place
    where the file stops to parse: partial.yang defines the module early
    and is malformed after it. *)
Definition Read_partial (file : string) (ms : list Demo.module)
  : list Demo.module * option error :=
  if String.eqb file "partial.yang" then
    (ms ++ [ {| Demo.m_name := "early"; Demo.m_file := "partial.yang" |} ],
     Some "partial.yang: syntax error")
  else Read (YangLib := Demo.lib) file ms.

Definition lib_partial : YangLib (list Demo.module) Demo.module Demo.entry := {|
  Name := Demo.m_name;
  NewModules := [];
  Parse := Parse (YangLib := Demo.lib);
  Read := Read_partial;
  Process := Process (YangLib := Demo.lib);
  range_Modules := fun ms => ms;
  ToEntry := Demo.to_entry;
  GetModule := GetModule (YangLib := Demo.lib)
|}.

End DemoLibraries.

(** ** Further notions used to describe registries and runs *)

Section MoreNotions.

Context {Modules Module Entry : Type} {lib : YangLib Modules Module Entry}.

(** The registry after [register] was called with each formatter of
    [fms], in order, as the init functions of the formats do. *)
Definition register_all (fms : list (formatter Entry))
           (formatters : gmap string (formatter Entry))
  : gmap string (formatter Entry) :=
  foldl (fun registry fm => register fm registry) formatters fms.

(** The formatter of that name that comes last in [fms]. *)
Definition last_named (n : string) (fms : list (formatter Entry))
  : option (formatter Entry) :=
  last (filter (fun fm => name fm = n) fms).

(** The same command line without [--trace]. *)
Definition without_trace (flags : Flags) : Flags :=
  {| opt_format := opt_format flags;
     opt_trace := "";
     opt_help := opt_help flags;
     opt_args := opt_args flags |}.

(** How many events of a kind a log holds. *)
Definition calls (t : tag) (log : list (event Entry)) : nat :=
  length (filter (fun e => tag_of e = t) log).

(** The errors of the files that [ms.Read] could not read, in the order
    of the files (lines 147-152). *)
Fixpoint read_errors (files : list string) (ms : Modules) : list error :=
  match files with
  | [] => []
  | file :: rest =>
      match (Read file ms).2 with
      | Some e => [e]
      | None => []
      end
      ++ read_errors rest (Read file ms).1
  end.

End MoreNotions.

(** * Properties *)

(** ** The order of strings and [sort.Strings] *)

Module GoStringsFacts.

Lemma compare_Lt_trans (s t u : string) :
  String.compare s t = Lt -> String.compare t u = Lt ->
  String.compare s u = Lt.
Proof.
  revert t u. induction s as [|a s IH]; intros [|b t] [|c u]; simpl;
    try done.
  unfold Ascii.compare.
  destruct (N.compare_spec (N_of_ascii a) (N_of_ascii b)) as [Hab|Hab|Hab];
    destruct (N.compare_spec (N_of_ascii b) (N_of_ascii c)) as [Hbc|Hbc|Hbc];
    try done; intros H1 H2.
  - rewrite Hab, Hbc, N.compare_refl. eauto.
  - rewrite Hab. by apply N.compare_lt_iff in Hbc as ->.
  - rewrite <- Hbc. by apply N.compare_lt_iff in Hab as ->.
  - assert (N_of_ascii a < N_of_ascii c)%N as Hac by lia.
    by apply N.compare_lt_iff in Hac as ->.
Qed.

Lemma compare_refl (s : string) : String.compare s s = Eq.
Proof.
  pose proof (String.compare_antisym s s) as H.
  by destruct (String.compare s s).
Qed.

Lemma le_iff (s t : string) : le s t <-> s = t \/ lt s t.
Proof.
  unfold le, lt, String.leb, String.ltb.
  destruct (String.compare s t) eqn:E.
  - apply String.compare_eq_iff in E. naive_solver.
  - naive_solver.
  - split; [done|]. intros [->|]; [|done].
    by rewrite compare_refl in E.
Qed.

Lemma lt_irrefl (s : string) : ~ lt s s.
Proof.
  unfold lt, String.ltb.
  by rewrite compare_refl.
Qed.

Lemma lt_trans : Transitive lt.
Proof.
  intros s t u. unfold lt, String.ltb.
  destruct (String.compare s t) eqn:E1; try done.
  destruct (String.compare t u) eqn:E2; try done.
  by rewrite (compare_Lt_trans s t u).
Qed.

Lemma le_trans : Transitive le.
Proof.
  intros s t u. rewrite !le_iff. intros [->|H1] [->|H2]; eauto.
  right. by eapply lt_trans.
Qed.

Lemma le_total : Total le.
Proof. intros s t. apply String.leb_total. Qed.

Lemma le_antisym : AntiSymm (=) le.
Proof. intros s t. apply String.leb_antisym. Qed.

Lemma sort_Strings_sorted (x : list string) :
  StronglySorted le (sort_Strings x).
Proof.
  apply StronglySorted_merge_sort; [apply le_trans|apply le_total].
Qed.

Lemma sort_Strings_perm (x : list string) : sort_Strings x ≡ₚ x.
Proof. apply merge_sort_Permutation. Qed.

(** Whatever algorithm [sort.Strings] runs, this is its result. *)
Lemma sort_Strings_unique (x y : list string) :
  y ≡ₚ x -> StronglySorted le y -> y = sort_Strings x.
Proof.
  intros Hp Hs.
  apply (@StronglySorted_unique _ le le_antisym); [done| |].
  - apply sort_Strings_sorted.
  - by rewrite sort_Strings_perm.
Qed.

Lemma elem_of_sort_Strings (s : string) (x : list string) :
  s ∈ sort_Strings x <-> s ∈ x.
Proof. by rewrite sort_Strings_perm. Qed.

Lemma length_sort_Strings (x : list string) :
  length (sort_Strings x) = length x.
Proof. by rewrite sort_Strings_perm. Qed.

(** Without duplicates the sorted slice is strictly increasing. *)
Lemma sort_Strings_NoDup (x : list string) :
  NoDup x -> StronglySorted lt (sort_Strings x).
Proof.
  intros Hnd. rewrite <- sort_Strings_perm in Hnd.
  pose proof (sort_Strings_sorted x) as Hs.
  induction Hs as [|s l Hs IH Hall]; [constructor|].
  apply NoDup_cons in Hnd as [Hs' Hnd].
  constructor; [by apply IH|].
  rewrite Forall_forall in Hall |- *. intros t Ht.
  destruct (proj1 (le_iff s t) (Hall t Ht)) as [->|]; done.
Qed.

(** Two slices with the same elements and no duplicates sort alike. *)
Lemma sort_Strings_same_set (x y : list string) :
  NoDup x -> NoDup y -> (forall s, s ∈ x <-> s ∈ y) ->
  sort_Strings x = sort_Strings y.
Proof.
  intros Hx Hy Hxy. apply sort_Strings_unique.
  - rewrite sort_Strings_perm. by apply NoDup_Permutation.
  - apply sort_Strings_sorted.
Qed.

End GoStringsFacts.

Import GoStringsFacts.

(** ** The format registry *)

Section RegistryFacts.

Context {Entry : Type}.
Implicit Types (fm : formatter Entry) (formatters : gmap string (formatter Entry)).

Lemma lookup_register fm formatters :
  register fm formatters !! name fm = Some fm.
Proof. unfold register. by rewrite lookup_insert_eq. Qed.

Lemma lookup_register_ne fm formatters (n : string) :
  name fm ≠ n -> register fm formatters !! n = formatters !! n.
Proof. intros. unfold register. by rewrite lookup_insert_ne. Qed.

Lemma elem_of_registered_formats formatters (n : string) :
  n ∈ registered_formats formatters <-> is_Some (formatters !! n).
Proof.
  unfold registered_formats. rewrite elem_of_sort_Strings.
  rewrite list_elem_of_fmap. split.
  - intros ([k fm] & -> & H). apply elem_of_map_to_list in H. eauto.
  - intros [fm H]. exists (n, fm). split; [done|].
    by apply elem_of_map_to_list.
Qed.

Lemma registered_formats_sorted formatters :
  StronglySorted lt (registered_formats formatters).
Proof. apply sort_Strings_NoDup, NoDup_fst_map_to_list. Qed.

Lemma keyed_by_name_init : keyed_by_name (formatters_init (Entry := Entry)).
Proof. intros n fm. unfold formatters_init. by rewrite lookup_empty. Qed.

Lemma keyed_by_name_register fm formatters :
  keyed_by_name formatters -> keyed_by_name (register fm formatters).
Proof.
  intros H n fm'. unfold register. rewrite lookup_insert.
  case_decide; [naive_solver|apply H].
Qed.

(** C9. Registering two formatters of the same name one after the
    other leaves the registry mapping that name to the second one:
    [register] is a total function, the lookup of the name returns
    exactly the formatter registered last, and the first registration
    leaves no trace. *)
Theorem register_last_wins fm1 fm2 formatters :
  name fm1 = name fm2 ->
  register fm2 (register fm1 formatters) !! name fm1 = Some fm2
  ∧ register fm2 (register fm1 formatters) !! name fm2 = Some fm2
  ∧ register fm2 (register fm1 formatters) = register fm2 formatters.
Proof.
  intros Hn. unfold register. rewrite Hn.
  rewrite lookup_insert_eq, insert_insert_eq. done.
Qed.

End RegistryFacts.

(** An instance of C9 with two formatters both named tree. *)
Lemma register_last_wins_witness :
name Demo.tree = name Demo.tree'
∧ register Demo.tree' (register Demo.tree formatters_init) !! "tree"
  = Some Demo.tree'.
Proof.
split; [reflexivity|].
apply (register_last_wins Demo.tree Demo.tree' formatters_init).
reflexivity.
Defined.

(** ** The top level modules (lines 159-172) *)

Section TopModules.

Context {Modules Module Entry : Type} {lib : YangLib Modules Module Entry}.
Implicit Types (l : list Module) (m : Module) (n : string).

Lemma first_named_app l1 l2 n :
  first_named n (l1 ++ l2)
  = match first_named n l1 with
    | Some m => Some m
    | None => first_named n l2
    end.
Proof.
  unfold first_named. induction l1 as [|m l1 IH]; simpl; [done|].
  by destruct (String.eqb (Name m) n).
Qed.

Lemma first_named_Some l n m :
  first_named n l = Some m -> m ∈ l ∧ Name m = n.
Proof.
  unfold first_named. intros H. apply find_some in H as [H1 H2].
  split; [by apply list_elem_of_In|by apply String.eqb_eq].
Qed.

Lemma first_named_None l n :
  first_named n l = None <-> n ∉ Name <$> l.
Proof.
  unfold first_named. induction l as [|m l IH]; simpl.
  - split; [intros _; apply not_elem_of_nil|done].
  - rewrite not_elem_of_cons, <- IH.
    destruct (String.eqb_spec (Name m) n) as [->|Hne]; intuition congruence.
Qed.

Lemma first_named_is_Some l n :
  n ∈ Name <$> l -> exists m, first_named n l = Some m.
Proof.
  intros Hin. destruct (first_named n l) as [m|] eqn:E; [eauto|].
  by apply first_named_None in E.
Qed.

(** The loop keeps, for every name, the first module it meets. *)
Lemma top_modules_spec l :
  NoDup (top_modules l).2
  ∧ (forall n, n ∈ (top_modules l).2 <-> n ∈ Name <$> l)
  ∧ (forall n, (top_modules l).1 !! n = first_named n l).
Proof.
  unfold top_modules. induction l as [|m l IH] using rev_ind.
  - simpl. split_and!; [constructor|done|done].
  - rewrite foldl_app. simpl.
    destruct (foldl keep_first (∅, []) l) as [mods names].
    simpl in IH. destruct IH as (Hnd & Hel & Hlk). unfold keep_first.
    rewrite Hlk. destruct (first_named (Name m) l) as [m'|] eqn:E; simpl.
    + apply first_named_Some in E as [E1 E2]. split_and!; [done| |].
      * intros n. rewrite Hel, fmap_app, elem_of_app. simpl.
        rewrite list_elem_of_singleton. split; [eauto|].
        intros [?| ->]; [done|]. rewrite <- E2.
        by apply list_elem_of_fmap_2.
      * intros n. rewrite Hlk, first_named_app.
        destruct (first_named n l) eqn:E'; [done|]. simpl.
        unfold first_named. simpl.
        destruct (String.eqb_spec (Name m) n) as [<-|]; [|done].
        apply first_named_None in E'. destruct E'. rewrite <- E2.
        by apply list_elem_of_fmap_2.
    + pose proof E as E'. apply first_named_None in E'.
      split_and!.
      * apply NoDup_app. split_and!; [done| |apply NoDup_singleton].
        intros n Hn Hn'. apply list_elem_of_singleton in Hn' as ->.
        by apply Hel in Hn.
      * intros n. rewrite fmap_app, !elem_of_app, Hel. done.
      * intros n. rewrite first_named_app. rewrite lookup_insert.
        case_decide as Hd.
        -- subst n. rewrite E. unfold first_named. simpl.
           by rewrite String.eqb_refl.
        -- rewrite Hlk. destruct (first_named n l); [done|].
           unfold first_named. simpl.
           by destruct (String.eqb_spec (Name m) n).
Qed.

Lemma top_names_sorted l : StronglySorted lt (top_names l).
Proof. apply sort_Strings_NoDup, top_modules_spec. Qed.

Lemma elem_of_top_names l n : n ∈ top_names l <-> n ∈ Name <$> l.
Proof.
  unfold top_names. rewrite elem_of_sort_Strings. apply top_modules_spec.
Qed.

(** As many top level names as there are distinct names. *)
Lemma length_top_names l :
  length (top_names l) = length (remove_dups (Name <$> l)).
Proof.
  unfold top_names. rewrite length_sort_Strings.
  apply Permutation_length, NoDup_Permutation.
  - apply top_modules_spec.
  - apply NoDup_remove_dups.
  - intros n. rewrite elem_of_remove_dups. apply top_modules_spec.
Qed.

(** The sorted names depend on the set of names only, not on the order
    in which the modules come. *)
Lemma top_names_same_set l l' :
  (forall n, n ∈ Name <$> l' <-> n ∈ Name <$> l) ->
  top_names l' = top_names l.
Proof.
  intros H. unfold top_names. apply sort_Strings_same_set.
  - apply top_modules_spec.
  - apply top_modules_spec.
  - intros n. destruct (top_modules_spec l) as (_ & -> & _).
    destruct (top_modules_spec l') as (_ & -> & _). apply H.
Qed.

Lemma top_entries_eq l :
  top_entries l = (fun n => ToEntry (first_named n l)) <$> top_names l.
Proof.
  unfold top_entries, top_names.
  pose proof (top_modules_spec l) as (_ & _ & Hlk).
  destruct (top_modules l) as [mods names]. simpl in *.
  apply list_fmap_ext. intros _ n _. by rewrite Hlk.
Qed.

(** The entries are those of one representative per name. *)
Lemma top_entries_representatives l :
  exists reps : list Module,
    top_entries l = (fun m => ToEntry (Some m)) <$> reps
    ∧ Name <$> reps = top_names l
    ∧ (forall m, m ∈ reps -> first_named (Name m) l = Some m).
Proof.
  rewrite top_entries_eq.
  assert (forall n, n ∈ top_names l -> n ∈ Name <$> l) as Hin
    by (intros n; apply elem_of_top_names).
  induction (top_names l) as [|n ns IH].
  - exists []. split_and!; [done|done|]. intros m Hm. by apply elem_of_nil in Hm.
  - destruct IH as (reps & H1 & H2 & H3).
    { intros n' Hn'. apply Hin. by right. }
    destruct (first_named_is_Some l n) as [m Hm]; [apply Hin; by left|].
    exists (m :: reps). rewrite !fmap_cons, Hm, H1, H2.
    pose proof (first_named_Some _ _ _ Hm) as [_ Hnm].
    split_and!; [done|by rewrite Hnm|].
    intros m' [->|Hm']%elem_of_cons; [by rewrite Hnm|by apply H3].
Qed.

End TopModules.

(** ** The stages of [main], one by one *)

Section StageFacts.

Context {Modules Module Entry : Type} {lib : YangLib Modules Module Entry}.
Variable formatters : gmap string (formatter Entry).
Variable os : OS.

Local Abbreviation M := (M Entry).
Local Abbreviation event := (event Entry).
Implicit Types (s : proc) (flags : Flags).

Lemma bind_Done {A B} (m : M A) (k : A -> M B) s l1 s1 a :
  m s = (l1, s1, Done a) ->
  (m ≫= k) s = (let '(l2, s2, o) := k a s1 in (l1 ++ l2, s2, o)).
Proof. unfold mbind, M_bind. by intros ->. Qed.

Lemma bind_Exit {A B} (m : M A) (k : A -> M B) s l1 s1 c :
  m s = (l1, s1, Exit c) -> (m ≫= k) s = (l1, s1, Exit c).
Proof. unfold mbind, M_bind. by intros ->. Qed.

Lemma stop_eq (c : Z) s : (stop c : M unit) s = (stopping s, s, Exit c).
Proof. unfold stop, stopping. by destruct (stop_var s). Qed.

Lemma for_range_emit {A} (g : A -> event) (xs : list A) s :
  for_range xs (fun x => emit (g x)) s = (g <$> xs, s, Done tt).
Proof.
  induction xs as [|x xs IH]; [done|]. simpl.
  erewrite bind_Done by reflexivity. by rewrite IH.
Qed.

Lemma exitIfError_nil s : (exitIfError [] : M unit) s = ([], s, Done tt).
Proof. done. Qed.

Lemma exitIfError_errors (errs : list error) s :
  errs ≠ [] ->
  (exitIfError errs : M unit) s
  = ((error_line <$> errs) ++ stopping s, s, Exit 1).
Proof.
  intros Hne. unfold exitIfError.
  destruct errs as [|e errs]; [done|]. cbn [length Nat.ltb Nat.leb].
  erewrite bind_Done by apply (for_range_emit error_line).
  by rewrite stop_eq.
Qed.

Lemma read_files_eq (files : list string) (ms : Modules) s :
  read_files files ms s
  = (read_log files ms, s, Done (files_loaded files ms)).
Proof.
  revert ms. induction files as [|file files IH]; intros ms; [done|].
  simpl. destruct (Read file ms) as [ms' [e|]]; simpl.
  - erewrite bind_Done by reflexivity. erewrite bind_Done by reflexivity.
    by rewrite IH.
  - erewrite bind_Done by reflexivity. by rewrite IH.
Qed.

Lemma read_stdin_ok s :
  (stdin_loaded os).2 = None ->
  read_stdin os NewModules s = (stdin_log os, s, Done (stdin_loaded os).1).
Proof.
  unfold read_stdin, stdin_log, stdin_loaded.
  destruct (ReadAll_Stdin os) as [data [e|]]; simpl; [done|].
  destruct (Parse data "<STDIN>" NewModules) as [ms' [e|]]; simpl; [done|].
  done.
Qed.

Lemma read_stdin_failed s (e : error) :
  (stdin_loaded os).2 = Some e ->
  read_stdin os NewModules s
  = (stdin_log os ++ [error_line e] ++ stopping s, s, Exit 1).
Proof.
  unfold read_stdin, stdin_log, stdin_loaded.
  destruct (ReadAll_Stdin os) as [data [e'|]]; simpl.
  - intros [= ->]. unfold mbind, M_bind. simpl. by rewrite stop_eq.
  - destruct (Parse data "<STDIN>" NewModules) as [ms' [e'|]]; simpl;
      [|done].
    intros [= ->]. unfold mbind, M_bind. simpl. by rewrite stop_eq.
Qed.

Lemma help_loop_eq (formats : list string) s :
  (forall fn, fn ∈ formats -> is_Some (formatters !! fn)) ->
  for_range formats (fun fn =>
    match formatters !! fn with
    | Some fm => emit (Stderr ("    " +:+ name fm +:+ " - " +:+ help fm +:+ nl))
    | None => panic
    end) s
  = (help_lines formatters formats, s, Done tt).
Proof.
  induction formats as [|fn formats IH]; intros Hall; [done|].
  simpl. destruct (Hall fn) as [fm Hfm]; [by left|]. rewrite Hfm.
  erewrite bind_Done by reflexivity. rewrite IH; [done|].
  intros fn' Hfn'. apply Hall. by right.
Qed.

Lemma show_help_eq s :
  show_help formatters (registered_formats formatters) s
  = (PrintUsage :: Stderr (nl +:+ "Formats:" +:+ nl)
       :: help_lines formatters (registered_formats formatters)
       ++ stopping s, s, Exit 0).
Proof.
  unfold show_help.
  erewrite bind_Done by reflexivity. erewrite bind_Done by reflexivity.
  erewrite bind_Done
    by (apply help_loop_eq; intros fn; apply elem_of_registered_formats).
  by rewrite stop_eq.
Qed.

Lemma check_format_ok (format : string) (formats : list string) s :
  is_Some (formatters !! format) ->
  check_format formatters format formats s = ([], s, Done tt).
Proof. intros [fm H]. unfold check_format. by rewrite H. Qed.

Lemma check_format_invalid (format : string) (formats : list string) s :
  formatters !! format = None ->
  check_format formatters format formats s
  = (invalid_format_line format formats :: stopping s, s, Exit 1).
Proof.
  intros H. unfold check_format. rewrite H.
  erewrite bind_Done by reflexivity. by rewrite stop_eq.
Qed.

Lemma display_module_eq (module : string) (sources : list string) s :
  display_module module sources s
  = match (GetModule module sources).2 with
    | [] => ([CallGetModule module sources [];
              CallWrite (GetModule module sources).1], s, Done tt)
    | errs => (CallGetModule module sources errs
                 :: (error_line <$> errs) ++ stopping s, s, Exit 1)
    end.
Proof.
  unfold display_module.
  destruct (GetModule module sources) as [e [|err errs]]; simpl; [done|].
  erewrite bind_Done by reflexivity.
  erewrite bind_Exit by (by apply exitIfError_errors). done.
Qed.

End StageFacts.

(** ** Whole runs *)

Section RunFacts.

Context {Modules Module Entry : Type} {lib : YangLib Modules Module Entry}.
Variable formatters : gmap string (formatter Entry).
Variable os : OS.

Local Abbreviation M := (M Entry).
Local Abbreviation event := (event Entry).
Implicit Types (s : proc) (flags : Flags).

Ltac same_log :=
  cbn [fst snd app]; rewrite <- ?app_assoc, ?app_nil_r; done.

Lemma display_files_eq (format : string) (files : list string) s fm :
  formatters !! format = Some fm ->
  display_files formatters os format files s
  = match files, (stdin_loaded os).2 with
    | [], Some e => (stdin_log os ++ [error_line e] ++ stopping s, s, Exit 1)
    | _, _ =>
        match process_errors os files with
        | [] => (load_log os files
                   ++ [CallProcess [];
                       CallFormatter fm
                         (top_entries (range_Modules (processed os files)))],
                 s, Done tt)
        | errs => (load_log os files
                     ++ CallProcess errs :: (error_line <$> errs)
                     ++ stopping s, s, Exit 1)
        end
    end.
Proof.
  intros Hfm. unfold display_files, process_errors, processed.
  assert (forall ms,
    (let '(ms, errs) := Process ms in
     emit (CallProcess errs) ;; exitIfError errs ;;
     match formatters !! format with
     | Some fm => emit (CallFormatter fm (top_entries (range_Modules ms)))
     | None => panic
     end) s
    = match (Process ms).2 with
      | [] => ([CallProcess [];
                CallFormatter fm (top_entries (range_Modules (Process ms).1))],
               s, Done tt)
      | errs => (CallProcess errs :: (error_line <$> errs) ++ stopping s,
                 s, Exit 1)
      end) as Htail.
  { intros ms. destruct (Process ms) as [ms' [|e errs]]; simpl.
    - by rewrite Hfm.
    - erewrite bind_Done by reflexivity.
      erewrite bind_Exit by (by apply exitIfError_errors). done. }
  destruct files as [|file files].
  - cbn [length Nat.eqb]. destruct (stdin_loaded os).2 as [e|] eqn:E.
    + erewrite bind_Exit by (by apply read_stdin_failed). done.
    + erewrite bind_Done by (by apply read_stdin_ok).
      erewrite bind_Done by apply read_files_eq.
      rewrite Htail. cbn [loaded load_log files_loaded foldl read_log].
      destruct (Process (stdin_loaded os).1).2; by rewrite ?app_nil_r.
  - cbn [length Nat.eqb]. erewrite bind_Done by reflexivity.
    erewrite bind_Done by apply read_files_eq.
    rewrite Htail. cbn [loaded load_log app].
    by destruct (Process (files_loaded (file :: files) NewModules)).2,
                (stdin_loaded os).2.
Qed.

(** The part of [main] after the trace set-up leaves the [stop] variable
    and the deferred calls alone, and never panics. *)
Lemma after_trace_eq flags s :
  after_trace formatters os flags s
  = ((body formatters os flags).1
       ++ match (body formatters os flags).2 with
          | Some _ => stopping s
          | None => []
          end,
     s,
     match (body formatters os flags).2 with
     | Some c => Exit c
     | None => Done tt
     end).
Proof.
  unfold after_trace, body. destruct (opt_help flags).
  - erewrite bind_Exit by apply show_help_eq. done.
  - erewrite bind_Done by reflexivity.
    destruct (formatters !! requested_format flags) as [fm|] eqn:Hfm.
    + erewrite bind_Done by (by apply check_format_ok).
      unfold spec_request.
      destruct (opt_args flags) as [|files_0 files_1] eqn:Hargs.
      * rewrite (display_files_eq _ _ _ fm Hfm).
        destruct (stdin_loaded os).2; [same_log|].
        destruct (process_errors os []); same_log.
      * destruct (HasSuffix files_0 ".yang"); cbn [negb].
        -- rewrite (display_files_eq _ _ _ fm Hfm).
           destruct (process_errors os (files_0 :: files_1)),
                    (stdin_loaded os).2; same_log.
        -- rewrite display_module_eq.
           destruct (GetModule files_0 files_1).2; same_log.
    + erewrite bind_Exit by (by apply check_format_invalid). done.
Qed.

Lemma main_eq flags :
  main formatters os flags
  = (start_trace os (opt_trace flags) ;; after_trace formatters os flags).
Proof. done. Qed.

(** A run whose trace file cannot be created. *)
Lemma run_trace_failed flags (e : error) :
  opt_trace flags ≠ "" ->
  os_Create os (opt_trace flags) = Some e ->
  yang formatters os flags
  = ([Create (opt_trace flags) (Some e); error_line e], Exited 1).
Proof.
  intros Hne He. unfold yang. rewrite main_eq. unfold run, start_trace.
  apply String.eqb_neq in Hne. rewrite Hne, He. done.
Qed.

(** Every other run. *)
Lemma run_eq flags :
  trace_ok os flags ->
  yang formatters os flags
  = (trace_started flags ++ (body formatters os flags).1
       ++ trace_stopped flags,
     match (body formatters os flags).2 with
     | Some c => Exited c
     | None => Returned
     end).
Proof.
  intros Hok. unfold yang. rewrite main_eq.
  unfold run, trace_started, trace_stopped, traced.
  unfold start_trace.
  destruct (String.eqb_spec (opt_trace flags) "") as [Ht|Ht]; cbn [negb].
  - erewrite bind_Done by reflexivity. rewrite after_trace_eq.
    destruct (body formatters os flags).2; simpl; by rewrite ?app_nil_r.
  - destruct Hok as [?|Hok]; [done|]. rewrite Hok.
    erewrite bind_Done.
    2:{ erewrite bind_Done by reflexivity. erewrite bind_Done by reflexivity.
        erewrite bind_Done by reflexivity. reflexivity. }
    rewrite after_trace_eq.
    destruct (body formatters os flags).2; simpl; by rewrite <- ?app_assoc.
Qed.

End RunFacts.

(** ** The kinds of events in each part of a log *)

Ltac tag_elem :=
  solve [repeat first [apply list_elem_of_here | apply list_elem_of_further]].

Ltac tag_sub :=
  let t := fresh "t" in
  let H := fresh "H" in
  intros t H;
  repeat (apply elem_of_cons in H as [->|H]; [tag_elem|]);
  by apply elem_of_nil in H.

Ltac tag_notin :=
  rewrite list_elem_of_In; simpl; intuition discriminate.

Section LogFacts.

Context {Modules Module Entry : Type} {lib : YangLib Modules Module Entry}.
Variable formatters : gmap string (formatter Entry).
Variable os : OS.

Local Abbreviation event := (event Entry).
Implicit Types (l log : list event) (ts : list tag) (flags : Flags).

Lemma tags_in_app ts l1 l2 :
  tags_in ts (l1 ++ l2) <-> tags_in ts l1 ∧ tags_in ts l2.
Proof. apply Forall_app. Qed.

Lemma tags_in_cons ts (e : event) l :
  tags_in ts (e :: l) <-> tag_of e ∈ ts ∧ tags_in ts l.
Proof. apply (Forall_cons (fun e => tag_of e ∈ ts)). Qed.

Lemma tags_in_mono ts ts' l : ts ⊆ ts' -> tags_in ts l -> tags_in ts' l.
Proof.
  intros Hsub Hl. eapply Forall_impl; [exact Hl|].
  intros e. apply Hsub.
Qed.

Lemma tags_in_not_elem ts l (e : event) :
  tags_in ts l -> tag_of e ∉ ts -> e ∉ l.
Proof.
  intros Hl He Hin. apply He.
  by apply (proj1 (Forall_forall _ _) Hl).
Qed.

Lemma outputs_app l1 l2 : outputs (l1 ++ l2) = outputs l1 ++ outputs l2.
Proof. apply filter_app. Qed.

Lemma sources_of_app l1 l2 :
  sources_of (l1 ++ l2) = sources_of l1 ++ sources_of l2.
Proof. apply flat_map_app. Qed.

Lemma outputs_tags ts l :
  tags_in ts l -> tWrite ∉ ts -> tFormatter ∉ ts -> outputs l = [].
Proof.
  intros Hl Hw Hf. unfold outputs.
  induction Hl as [|e l He Hl IH]; [done|].
  rewrite filter_cons, IH. by destruct e.
Qed.

Lemma sources_of_tags ts l :
  tags_in ts l -> tReadStdin ∉ ts -> tRead ∉ ts -> tGetModule ∉ ts ->
  sources_of l = [].
Proof.
  intros Hl H1 H2 H3. unfold sources_of.
  induction Hl as [|e l He Hl IH]; [done|].
  simpl. rewrite IH. by destruct e.
Qed.

Lemma error_lines_tags (errs : list error) :
  tags_in [tStderr] (error_line (Entry := Entry) <$> errs).
Proof.
  induction errs; [apply Forall_nil_2|].
  apply Forall_cons_2; [tag_elem|done].
Qed.

Lemma help_lines_tags (formats : list string) :
  tags_in [tStderr] (help_lines formatters formats).
Proof.
  induction formats as [|fn formats IH]; [apply Forall_nil_2|].
  unfold help_lines. simpl. destruct (formatters !! fn); [|done].
  apply Forall_cons_2; [tag_elem|done].
Qed.

Lemma read_log_tags (files : list string) (ms : Modules) :
  tags_in [tRead; tStderr] (read_log (Entry := Entry) files ms).
Proof.
  revert ms. induction files as [|file files IH]; intros ms;
    [apply Forall_nil_2|].
  simpl. apply Forall_cons_2; [tag_elem|]. apply Forall_app_2; [|apply IH].
  destruct (Read file ms).2; [|apply Forall_nil_2].
  apply Forall_cons_2; [tag_elem|apply Forall_nil_2].
Qed.

Lemma stdin_log_tags :
  tags_in [tReadStdin; tParse] (stdin_log (Entry := Entry) os).
Proof.
  unfold stdin_log. apply Forall_cons_2; [tag_elem|].
  destruct (ReadAll_Stdin os).2; [apply Forall_nil_2|].
  apply Forall_cons_2; [tag_elem|apply Forall_nil_2].
Qed.

Lemma load_log_tags (files : list string) :
  tags_in [tReadStdin; tParse; tRead; tStderr]
          (load_log (Entry := Entry) os files).
Proof.
  destruct files as [|file files].
  - eapply tags_in_mono; [|apply stdin_log_tags]. tag_sub.
  - eapply tags_in_mono; [|apply read_log_tags]. tag_sub.
Qed.

Lemma trace_started_tags flags :
  tags_in [tCreate; tStart] (trace_started (Entry := Entry) flags).
Proof.
  unfold trace_started. destruct (traced flags); [|apply Forall_nil_2].
  repeat (apply Forall_cons_2; [tag_elem|]). apply Forall_nil_2.
Qed.

Lemma trace_stopped_tags flags :
  tags_in [tStop] (trace_stopped (Entry := Entry) flags).
Proof.
  unfold trace_stopped. destruct (traced flags); [|apply Forall_nil_2].
  apply Forall_cons_2; [tag_elem|apply Forall_nil_2].
Qed.

(** The sources that the files of a file-list run are. *)
Lemma sources_of_read_log (files : list string) (ms : Modules) :
  sources_of (read_log (Entry := Entry) files ms) = FromFile <$> files.
Proof.
  revert ms. induction files as [|file files IH]; intros ms; [done|].
  simpl. unfold sources_of in *. rewrite flat_map_app, IH.
  by destruct (Read file ms).2.
Qed.

Lemma sources_of_stdin_log :
  sources_of (stdin_log (Entry := Entry) os) = [FromStdin].
Proof. unfold stdin_log. by destruct (ReadAll_Stdin os).2. Qed.

Lemma outputs_cons (e : event) l :
  outputs (e :: l) = if writes_Stdout e then e :: outputs l else outputs l.
Proof. unfold outputs. rewrite filter_cons. by destruct (writes_Stdout e). Qed.

Lemma sources_of_cons (e : event) l :
  sources_of (e :: l) = source_of e ++ sources_of l.
Proof. done. Qed.

Lemma outputs_error_lines (errs : list error) :
  outputs (error_line (Entry := Entry) <$> errs) = [].
Proof.
  apply (outputs_tags [tStderr]); [apply error_lines_tags|tag_notin..].
Qed.

Lemma outputs_help_lines (formats : list string) :
  outputs (help_lines formatters formats) = [].
Proof.
  apply (outputs_tags [tStderr]); [apply help_lines_tags|tag_notin..].
Qed.

Lemma outputs_load_log (files : list string) :
  outputs (load_log (Entry := Entry) os files) = [].
Proof.
  apply (outputs_tags [tReadStdin; tParse; tRead; tStderr]);
    [apply load_log_tags|tag_notin..].
Qed.

Lemma outputs_stdin_log : outputs (stdin_log (Entry := Entry) os) = [].
Proof.
  apply (outputs_tags [tReadStdin; tParse]); [apply stdin_log_tags|tag_notin..].
Qed.

Lemma outputs_trace_started flags :
  outputs (trace_started (Entry := Entry) flags) = [].
Proof.
  apply (outputs_tags [tCreate; tStart]);
    [apply trace_started_tags|tag_notin..].
Qed.

Lemma outputs_trace_stopped flags :
  outputs (trace_stopped (Entry := Entry) flags) = [].
Proof.
  apply (outputs_tags [tStop]); [apply trace_stopped_tags|tag_notin..].
Qed.

Lemma sources_of_error_lines (errs : list error) :
  sources_of (error_line (Entry := Entry) <$> errs) = [].
Proof.
  apply (sources_of_tags [tStderr]); [apply error_lines_tags|tag_notin..].
Qed.

Lemma sources_of_help_lines (formats : list string) :
  sources_of (help_lines formatters formats) = [].
Proof.
  apply (sources_of_tags [tStderr]); [apply help_lines_tags|tag_notin..].
Qed.

Lemma sources_of_trace_started flags :
  sources_of (trace_started (Entry := Entry) flags) = [].
Proof.
  apply (sources_of_tags [tCreate; tStart]);
    [apply trace_started_tags|tag_notin..].
Qed.

Lemma sources_of_trace_stopped flags :
  sources_of (trace_stopped (Entry := Entry) flags) = [].
Proof.
  apply (sources_of_tags [tStop]); [apply trace_stopped_tags|tag_notin..].
Qed.

Lemma sources_of_load_log (files : list string) :
  sources_of (load_log (Entry := Entry) os files)
  = match files with
    | [] => [FromStdin]
    | _ => FromFile <$> files
    end.
Proof.
  destruct files; [apply sources_of_stdin_log|apply sources_of_read_log].
Qed.

(** What the body of [main] hands standard output to. *)
Lemma outputs_body flags :
  outputs (body formatters os flags).1
  = if opt_help flags then []
    else
      match formatters !! requested_format flags with
      | None => []
      | Some fm =>
          match spec_request (opt_args flags) with
          | NamedModule module aux =>
              match (GetModule module aux).2 with
              | [] => [CallWrite (GetModule module aux).1]
              | _ => []
              end
          | _ =>
              match opt_args flags, (stdin_loaded os).2 with
              | [], Some e => []
              | files, _ =>
                  match process_errors os files with
                  | [] => [CallFormatter fm
                             (top_entries (range_Modules (processed os files)))]
                  | _ => []
                  end
              end
          end
      end.
Proof.
  unfold body.
  repeat match goal with
         | |- context [match ?x with _ => _ end] => destruct x
         end;
    cbn [fst];
    rewrite ?outputs_app, ?outputs_cons, ?outputs_app, ?outputs_cons,
      ?outputs_error_lines, ?outputs_help_lines, ?outputs_load_log,
      ?outputs_stdin_log;
    done.
Qed.

(** Where the body of [main] takes input from. *)
Lemma sources_of_body flags :
  sources_of (body formatters os flags).1
  = if opt_help flags then []
    else
      match formatters !! requested_format flags with
      | None => []
      | Some _ =>
          match spec_request (opt_args flags) with
          | NamedModule module aux => [FromModule module aux]
          | StandardInput => [FromStdin]
          | FileList files => FromFile <$> files
          end
      end.
Proof.
  unfold body, spec_request.
  destruct (opt_help flags).
  { cbn [fst]. rewrite !sources_of_cons. apply sources_of_help_lines. }
  destruct (formatters !! requested_format flags) as [fm|]; [|done].
  destruct (opt_args flags) as [|files_0 files_1].
  - destruct (stdin_loaded os).2; cbn [fst].
    + by rewrite sources_of_app, sources_of_stdin_log.
    + destruct (process_errors os []); cbn [fst];
        rewrite sources_of_app, sources_of_load_log, ?sources_of_cons,
          ?sources_of_error_lines; done.
  - destruct (HasSuffix files_0 ".yang").
    + destruct (process_errors os (files_0 :: files_1)); cbn [fst];
        rewrite sources_of_app, sources_of_load_log, ?sources_of_cons,
          ?sources_of_error_lines; cbn [source_of app]; by rewrite app_nil_r.
    + destruct (GetModule files_0 files_1).2; cbn [fst];
        rewrite ?sources_of_cons, ?sources_of_error_lines; done.
Qed.

(** The body of [main] neither creates a file nor touches the trace. *)
Lemma body_tags flags :
  tags_in [tStderr; tPrintUsage; tReadStdin; tParse; tRead; tGetModule;
           tProcess; tWrite; tFormatter]
          (body formatters os flags).1.
Proof.
  unfold body, tags_in.
  repeat match goal with
         | |- context [match ?x with _ => _ end] => destruct x
         end;
    cbn [fst];
    repeat match goal with
           | |- Forall _ (_ <$> _) =>
               eapply tags_in_mono; [|apply error_lines_tags]; tag_sub
           | |- Forall _ (help_lines _ _) =>
               eapply tags_in_mono; [|apply help_lines_tags]; tag_sub
           | |- Forall _ (load_log _ _) =>
               eapply tags_in_mono; [|apply load_log_tags]; tag_sub
           | |- Forall _ (stdin_log _) =>
               eapply tags_in_mono; [|apply stdin_log_tags]; tag_sub
           | |- Forall _ (_ ++ _) => apply Forall_app_2
           | |- Forall _ (_ :: _) => apply Forall_cons_2; [tag_elem|]
           | |- Forall _ [] => apply Forall_nil_2
           end.
Qed.

End LogFacts.

(** ** The claims about whole runs *)

(** Proves [tags_in ts l] for a log built from the parts above. *)
Ltac solve_tags :=
  unfold tags_in;
  repeat match goal with
         | |- Forall _ (_ <$> _) =>
             eapply tags_in_mono; [|apply error_lines_tags]; tag_sub
         | |- Forall _ (help_lines _ _) =>
             eapply tags_in_mono; [|apply help_lines_tags]; tag_sub
         | |- Forall _ (load_log _ _) =>
             eapply tags_in_mono; [|apply load_log_tags]; tag_sub
         | |- Forall _ (stdin_log _) =>
             eapply tags_in_mono; [|apply stdin_log_tags]; tag_sub
         | |- Forall _ (read_log _ _) =>
             eapply tags_in_mono; [|apply read_log_tags]; tag_sub
         | |- Forall _ (trace_started _) =>
             eapply tags_in_mono; [|apply trace_started_tags]; tag_sub
         | |- Forall _ (trace_stopped _) =>
             eapply tags_in_mono; [|apply trace_stopped_tags]; tag_sub
         | |- Forall _ (_ ++ _) => apply Forall_app_2
         | |- Forall _ (_ :: _) => apply Forall_cons_2; [tag_elem|]
         | |- Forall _ [] => apply Forall_nil_2
         end.

(** Splits [H : e ∈ l] into the places where [e] can be. *)
Tactic Notation "split_elem" hyp(H) :=
  repeat first [ rewrite elem_of_app in H | rewrite elem_of_cons in H ];
  try destruct_or! H.

(** Closes a goal with [H : e ∈ l] when no event of [l] is of the kind of
    [e]; [ts] lists the other kinds. *)
Tactic Notation "absurd_elem" hyp(H) constr(ts) :=
  solve [ exfalso; revert H; cbn [fst load_log];
          apply (tags_in_not_elem ts); [solve_tags|tag_notin] ].

(** The same, for a goal [e ∈ l -> _] and [Hno : ∀ l, tags_in ts l -> e ∈ l
    -> False]. *)
Tactic Notation "absurd_by" constr(Hno) :=
  cbn [fst load_log];
  let H := fresh in
  intros H; exfalso; revert H; apply Hno; solve_tags.

Section Claims.

Context {Modules Module Entry : Type} {lib : YangLib Modules Module Entry}.
Variable formatters : gmap string (formatter Entry).
Variable os : OS.

Local Abbreviation event := (event Entry).
Local Abbreviation yang := (yang formatters os).
Implicit Types (l log : list event) (flags : Flags).

Lemma trace_cases flags :
  trace_ok os flags
  ∨ (opt_trace flags ≠ "" ∧ ∃ e, os_Create os (opt_trace flags) = Some e).
Proof.
  unfold trace_ok. destruct (String.eqb_spec (opt_trace flags) "");
    [by left; left|].
  destruct (os_Create os (opt_trace flags)) as [e|] eqn:E;
    [right; eauto|by left; right].
Qed.

Lemma traced_false flags : traced flags = false <-> opt_trace flags = "".
Proof.
  unfold traced. destruct (String.eqb_spec (opt_trace flags) ""); naive_solver.
Qed.

(** C8. Once tracing was started, that is once the file given with
    [--trace] was created, the last thing the process does is
    [trace.Stop], however it ends: by returning from [main], by the exit
    of [--help], of an invalid format, of a failure of standard input, of
    a module that cannot be resolved or of semantic processing.  The
    trace is started and stopped exactly once. *)
Theorem trace_stopped_on_every_exit flags :
  opt_trace flags ≠ "" ->
  os_Create os (opt_trace flags) = None ->
  exists l,
    (yang flags).1
    = [Create (opt_trace flags) None; trace_Start] ++ l ++ [trace_Stop]
    ∧ (trace_Start ∉ l) ∧ (trace_Stop ∉ l).
Proof.
  intros Hne Hok. rewrite run_eq by (by right).
  unfold trace_started, trace_stopped.
  destruct (traced flags) eqn:Htr; [|by apply traced_false in Htr].
  exists (body formatters os flags).1. split_and!; [done| |];
    (eapply tags_in_not_elem; [apply body_tags|tag_notin]).
Qed.

(** Tracing is not started in any other run. *)
Lemma trace_not_started flags :
  opt_trace flags = "" ∨ is_Some (os_Create os (opt_trace flags)) ->
  trace_Start ∉ (yang flags).1.
Proof.
  intros H. destruct (trace_cases flags) as [Hok|(Hne & e & He)].
  - assert (opt_trace flags = "") as Hno.
    { destruct H as [|[e He]]; [done|]. destruct Hok as [|Hok]; [done|].
      by rewrite Hok in He. }
    rewrite run_eq by done. unfold trace_started, trace_stopped.
    apply traced_false in Hno as ->. simpl. rewrite app_nil_r.
    eapply tags_in_not_elem; [apply body_tags|tag_notin].
  - rewrite (run_trace_failed _ _ _ e) by done. simpl.
    rewrite !not_elem_of_cons. split_and!; [done|done|apply not_elem_of_nil].
Qed.

Lemma body_process flags (errs : list error) :
  CallProcess errs ∈ (body formatters os flags).1 ->
  errs ≠ [] ->
  (body formatters os flags).2 = Some 1%Z
  ∧ (body formatters os flags).1
    = load_log os (opt_args flags) ++ CallProcess errs :: (error_line <$> errs).
Proof.
  pose (ts := [tStderr; tPrintUsage; tCreate; tStart; tStop; tReadStdin;
               tParse; tRead; tGetModule; tWrite; tFormatter]).
  unfold body. intros Hin Hne.
  repeat match type of Hin with
         | context [match ?x with _ => _ end] => destruct x eqn:?
         end;
    cbn [fst snd] in *; split_elem Hin;
    try (by absurd_elem Hin ts);
    try (unfold error_line, invalid_format_line in Hin; discriminate).
  all: injection Hin as ->; done.
Qed.

(** C2. When the semantic processing call returns a non-empty batch of
    errors, every error of the batch is written to the error stream, one
    per line and in order, right after the call; the process then ends
    with status 1, and nothing was handed standard output in that run.
    Processing is called once. *)
Theorem processing_errors_are_terminal flags (errs : list error) :
  CallProcess errs ∈ (yang flags).1 ->
  errs ≠ [] ->
  (yang flags).2 = Exited 1
  ∧ status (yang flags).2 = 1%Z
  ∧ outputs (yang flags).1 = []
  ∧ ∃ l, (yang flags).1
         = l ++ CallProcess errs :: (error_line <$> errs)
             ++ trace_stopped flags
         ∧ tags_in [tCreate; tStart; tReadStdin; tParse; tRead; tStderr] l.
Proof.
  intros Hin Hne.
  destruct (trace_cases flags) as [Hok|(Hno & e & He)].
  - rewrite run_eq in * by done. cbn [fst snd] in *.
    assert (CallProcess errs ∈ (body formatters os flags).1) as Hb.
    { split_elem Hin; [|done|].
      - absurd_elem Hin [tCreate; tStart].
      - absurd_elem Hin [tStop]. }
    destruct (body_process _ _ Hb Hne) as [-> ->].
    split_and!; [done|done| |].
    + apply (outputs_tags [tCreate; tStart; tStop; tReadStdin; tParse;
                           tRead; tStderr; tProcess]);
        [solve_tags|tag_notin|tag_notin].
    + exists (trace_started flags ++ load_log os (opt_args flags)).
      split; [by rewrite <- !app_assoc|solve_tags].
  - rewrite (run_trace_failed _ _ _ e) in Hin by done. cbn [fst] in Hin.
    split_elem Hin; try done. by apply elem_of_nil in Hin.
Qed.

Lemma outputs_yang flags :
  trace_ok os flags ->
  outputs (yang flags).1 = outputs (body formatters os flags).1.
Proof.
  intros Hok. rewrite run_eq by done. cbn [fst].
  by rewrite !outputs_app, outputs_trace_started, outputs_trace_stopped,
    app_nil_r.
Qed.

Lemma sources_of_yang flags :
  trace_ok os flags ->
  sources_of (yang flags).1 = sources_of (body formatters os flags).1.
Proof.
  intros Hok. rewrite run_eq by done. cbn [fst].
  by rewrite !sources_of_app, sources_of_trace_started,
    sources_of_trace_stopped, app_nil_r.
Qed.

(** The lines of the help text are those of the registered formatters,
    in the order of their names. *)
Lemma help_lines_registered :
  ∃ fms : list (formatter Entry),
    help_lines formatters (registered_formats formatters) = help_line <$> fms
    ∧ Forall2 (fun fn fm => formatters !! fn = Some fm)
              (registered_formats formatters) fms.
Proof.
  assert (forall fn, fn ∈ registered_formats formatters ->
                     is_Some (formatters !! fn)) as Hall
    by (intros fn; apply elem_of_registered_formats).
  induction (registered_formats formatters) as [|fn fns IH].
  - exists []. split; [done|constructor].
  - destruct IH as (fms & H1 & H2); [intros fn' ?; apply Hall; by right|].
    destruct (Hall fn) as [fm Hfm]; [by left|].
    exists (fm :: fms). unfold help_lines in *. simpl. rewrite Hfm, H1.
    split; [done|by constructor].
Qed.

(** C4, as the program has it.  With [--help] no input is ever loaded and
    nothing is handed standard output, whatever the other flags and
    arguments are.  When no trace is asked for, or its file can be
    created, the process prints the usage and one line for each
    registered format, in the order of the sorted names, and ends with
    status 0; when the file of [--trace] cannot be created the process
    ends with status 1 before the help is printed: the usage is not
    printed, the run is the failed [os.Create] and its error line. *)
Theorem help_loads_no_input flags :
  opt_help flags = true ->
  sources_of (yang flags).1 = []
  ∧ outputs (yang flags).1 = []
  ∧ (trace_ok os flags ->
     (yang flags).2 = Exited 0
     ∧ ∃ fms : list (formatter Entry),
         (yang flags).1
         = trace_started flags
             ++ PrintUsage :: Stderr (nl +:+ "Formats:" +:+ nl)
                  :: (help_line <$> fms)
             ++ trace_stopped flags
         ∧ Forall2 (fun fn fm => formatters !! fn = Some fm)
                   (registered_formats formatters) fms
         ∧ StronglySorted lt (registered_formats formatters)
         ∧ ∀ n, n ∈ registered_formats formatters
                ↔ is_Some (formatters !! n))
  ∧ (¬ trace_ok os flags ->
     (yang flags).2 = Exited 1
     ∧ (PrintUsage ∉ (yang flags).1)
     ∧ ∃ e : error,
         os_Create os (opt_trace flags) = Some e
         ∧ (yang flags).1
           = [Create (opt_trace flags) (Some e); error_line e]).
Proof.
  intros Hhelp.
  destruct (trace_cases flags) as [Hok|(Hno & e & He)].
  - rewrite sources_of_yang, outputs_yang by done.
    rewrite sources_of_body, outputs_body, Hhelp.
    split_and!; [done|done| |done].
    intros _. rewrite run_eq by done. unfold body. rewrite Hhelp. cbn [fst snd].
    split; [done|].
    destruct help_lines_registered as (fms & -> & Hfms).
    exists fms. split_and!; [done|done|apply registered_formats_sorted|].
    apply elem_of_registered_formats.
  - rewrite (run_trace_failed _ _ _ e) by done.
    split_and!; [done|done| |].
    + intros [Hok|Hok]; [done|]. by rewrite Hok in He.
    + intros _. cbn [fst snd]. split_and!; [done| |by exists e].
      rewrite !not_elem_of_cons. split_and!; [done|done|apply not_elem_of_nil].
Qed.

(** C7, as the program has it.  When the requested format is not
    registered, [--help] was not given and the trace file, if any, could
    be created, the process writes the message that lists all registered
    names in sorted order and ends with status 1 before any input is
    read.  When the requested format is registered the run never fails
    for the lookup: it does not panic, and the formatter that is called
    is the one registered under the requested name. *)
Theorem format_is_checked_before_input flags :
  (formatters !! requested_format flags = None ->
   opt_help flags = false ->
   trace_ok os flags ->
   yang flags
   = (trace_started flags
        ++ [invalid_format_line (requested_format flags)
              (registered_formats formatters)]
        ++ trace_stopped flags, Exited 1)
   ∧ sources_of (yang flags).1 = []
   ∧ StronglySorted lt (registered_formats formatters)
   ∧ ∀ n, n ∈ registered_formats formatters ↔ is_Some (formatters !! n))
  ∧ (is_Some (formatters !! requested_format flags) ->
     (yang flags).2 ≠ Panicked
     ∧ ∀ fm entries,
         CallFormatter fm entries ∈ (yang flags).1 ->
         formatters !! requested_format flags = Some fm).
Proof.
  split.
  - intros Hnone Hhelp Hok.
    rewrite sources_of_yang, sources_of_body, Hhelp, Hnone by done.
    rewrite run_eq by done. unfold body. rewrite Hhelp, Hnone. cbn [fst snd].
    split_and!; [done|done|apply registered_formats_sorted|].
    apply elem_of_registered_formats.
  - intros [fm0 Hfm0].
    destruct (trace_cases flags) as [Hok|(Hno & e & He)].
    + split.
      * rewrite run_eq by done. cbn [snd].
        by destruct (body formatters os flags).2.
      * intros fm entries Hin.
        assert (CallFormatter fm entries ∈ outputs (yang flags).1) as Hout
          by (by apply list_elem_of_filter).
        rewrite outputs_yang, outputs_body, Hfm0 in Hout by done.
        repeat (cbv zeta in Hout;
                match type of Hout with
                | context [match ?x with _ => _ end] => destruct x
                end);
          split_elem Hout; try (by apply elem_of_nil in Hout);
          by simplify_eq.
    + rewrite (run_trace_failed _ _ _ e) by done. split; [done|].
      intros fm entries Hin. cbn [fst] in Hin. split_elem Hin; try done.
      by apply elem_of_nil in Hin.
Qed.

(** C3, as the program has it.  A run that reaches output hands standard
    output to exactly one call and then returns.  In file-list and stdin
    mode that call is the render function of the formatter registered
    under the requested name, with the entries of the top level modules
    in the order of their names.  In named-module mode it is [Write] with
    the entry of the module, whatever format was requested. *)
Theorem output_is_dispatched flags :
  outputs (yang flags).1 ≠ [] ->
  ∃ fm,
    formatters !! requested_format flags = Some fm
    ∧ (yang flags).2 = Returned
    ∧ match spec_request (opt_args flags) with
      | NamedModule module aux =>
          outputs (yang flags).1 = [CallWrite (GetModule module aux).1]
      | _ =>
          outputs (yang flags).1
          = [CallFormatter fm
               (top_entries
                  (range_Modules (processed os (opt_args flags))))]
      end.
Proof.
  destruct (trace_cases flags) as [Hok|(Hno & e & He)].
  - rewrite outputs_yang, outputs_body, run_eq by done. cbn [snd].
    unfold body.
    destruct (opt_help flags); [done|].
    destruct (formatters !! requested_format flags) as [fm|]; [|done].
    intros Hout. exists fm. split; [done|].
    destruct (spec_request (opt_args flags)).
    + by destruct (GetModule module auxiliary).2.
    + destruct (opt_args flags), (stdin_loaded os).2; try done;
        by destruct (process_errors os _).
    + destruct (opt_args flags), (stdin_loaded os).2; try done;
        by destruct (process_errors os _).
  - by rewrite (run_trace_failed _ _ _ e).
Qed.

Lemma read_log_error (files : list string) (ms : Modules) file (e : error) :
  CallRead file (Some e) ∈ read_log (Entry := Entry) files ms ->
  error_line e ∈ read_log (Entry := Entry) files ms.
Proof.
  revert ms. induction files as [|file' files IH]; intros ms Hin.
  - by apply elem_of_nil in Hin.
  - cbn [read_log] in *. destruct (Read file' ms).2 as [e'|] eqn:E.
    + split_elem Hin.
      * injection Hin as _ ->. right. by left.
      * unfold error_line in Hin. discriminate.
      * by apply elem_of_nil in Hin.
      * do 2 right. by apply IH.
    + split_elem Hin; [discriminate| |].
      * by apply elem_of_nil in Hin.
      * right. by apply IH.
Qed.

Lemma stdin_log_failure (e : error) :
  ReadStdin (Some e) ∈ stdin_log (Entry := Entry) os
  ∨ CallParse "<STDIN>" (Some e) ∈ stdin_log (Entry := Entry) os ->
  (stdin_loaded os).2 = Some e.
Proof.
  unfold stdin_log, stdin_loaded.
  destruct (ReadAll_Stdin os).2 as [e'|]; intros [Hin|Hin]; split_elem Hin;
    try (by apply elem_of_nil in Hin); by simplify_eq.
Qed.

(** A failed [Read] is seen in file-list runs only. *)
Lemma body_read flags file (e : error) :
  CallRead file (Some e) ∈ (body formatters os flags).1 ->
  spec_request (opt_args flags) = FileList (opt_args flags)
  ∧ is_Some (formatters !! requested_format flags)
  ∧ opt_help flags = false
  ∧ error_line e ∈ (body formatters os flags).1
  ∧ CallProcess (process_errors os (opt_args flags))
    ∈ (body formatters os flags).1.
Proof.
  pose (ts := [tStderr; tPrintUsage; tCreate; tStart; tStop; tReadStdin;
               tParse; tGetModule; tProcess; tWrite; tFormatter]).
  unfold body, spec_request. intros Hin.
  destruct (opt_help flags); [absurd_elem Hin ts|].
  destruct (formatters !! requested_format flags) as [fm|];
    [|absurd_elem Hin ts].
  destruct (opt_args flags) as [|files_0 files_1].
  { destruct (stdin_loaded os).2; [absurd_elem Hin ts|].
    destruct (process_errors os []); absurd_elem Hin ts. }
  destruct (HasSuffix files_0 ".yang");
    [|destruct (GetModule files_0 files_1).2; absurd_elem Hin ts].
  split_and!; [done|by eexists|done| |].
  - destruct (process_errors os (files_0 :: files_1));
      cbn [fst load_log] in *; split_elem Hin;
      try (by absurd_elem Hin ts); try discriminate;
      apply elem_of_app; left; by eapply read_log_error.
  - destruct (process_errors os (files_0 :: files_1));
      cbn [fst]; apply elem_of_app; right; by left.
Qed.

(** A failure of standard input ends the run. *)
Lemma body_stdin_failed flags (e : error) :
  ReadStdin (Some e) ∈ (body formatters os flags).1
  ∨ CallParse "<STDIN>" (Some e) ∈ (body formatters os flags).1 ->
  body formatters os flags = (stdin_log os ++ [error_line e], Some 1%Z).
Proof.
  pose (ts := [tStderr; tPrintUsage; tCreate; tStart; tStop; tRead;
               tGetModule; tProcess; tWrite; tFormatter]).
  assert (forall e1 : event, tag_of e1 = tReadStdin ∨ tag_of e1 = tParse ->
            e1 ∈ (body formatters os flags).1 ->
            e1 ∈ stdin_log os
            ∧ (forall e', (stdin_loaded os).2 = Some e' ->
                 body formatters os flags
                 = (stdin_log os ++ [error_line e'], Some 1%Z))) as Hstdin.
  { intros e1 He1. unfold body, spec_request.
    assert (tag_of e1 ∉ ts) as Hts
      by (destruct He1 as [-> | ->]; tag_notin).
    assert (forall l, tags_in ts l -> e1 ∈ l -> False) as Hno
      by (intros l Hl Hin; by eapply tags_in_not_elem).
    destruct (opt_help flags); [absurd_by Hno|].
    destruct (formatters !! requested_format flags) as [fm|];
      [|absurd_by Hno].
    destruct (opt_args flags) as [|files_0 files_1].
    - destruct (stdin_loaded os).2 as [e'|] eqn:E; cbn [fst].
      + intros Hin. split_elem Hin.
        * split; [done|]. by intros ? [= <-].
        * subst e1. by destruct He1.
        * by apply elem_of_nil in Hin.
      + destruct (process_errors os []); cbn [fst load_log]; intros Hin;
          apply elem_of_app in Hin as [Hin|Hin];
          try (split; done);
          exfalso; revert Hin; apply Hno; solve_tags.
    - destruct (HasSuffix files_0 ".yang").
      + destruct (process_errors os (files_0 :: files_1)); absurd_by Hno.
      + destruct (GetModule files_0 files_1).2; absurd_by Hno. }
  intros H.
  assert ((stdin_loaded os).2 = Some e) as He.
  { apply stdin_log_failure.
    destruct H as [H|H]; [left|right]; apply Hstdin in H as [H _]; auto. }
  destruct H as [H|H]; apply Hstdin in H as [_ H]; auto.
Qed.

(** C5. In file-list mode the failure to read or parse a file is written
    to the error stream and does not end the loading: every file that was
    named is read, in order, and the model set is then processed.  A
    failure to read or to parse standard input is written to the error
    stream as well, but ends the process with status 1: the model set is
    not processed and nothing is handed standard output. *)
Theorem file_errors_are_skipped_stdin_errors_are_terminal flags :
  (∀ file (e : error),
     CallRead file (Some e) ∈ (yang flags).1 ->
     error_line e ∈ (yang flags).1
     ∧ sources_of (yang flags).1 = FromFile <$> opt_args flags
     ∧ CallProcess (process_errors os (opt_args flags)) ∈ (yang flags).1)
  ∧ (∀ e : error,
       ReadStdin (Some e) ∈ (yang flags).1
       ∨ CallParse "<STDIN>" (Some e) ∈ (yang flags).1 ->
       yang flags
       = (trace_started flags ++ (stdin_log os ++ [error_line e])
            ++ trace_stopped flags, Exited 1)
       ∧ status (yang flags).2 = 1%Z
       ∧ outputs (yang flags).1 = []
       ∧ ∀ errs, CallProcess errs ∉ (yang flags).1).
Proof.
  destruct (trace_cases flags) as [Hok|(Hno & e0 & He0)].
  2:{ rewrite (run_trace_failed _ _ _ e0) by done. cbn [fst]. split.
      - intros file e Hin. split_elem Hin; try done.
        by apply elem_of_nil in Hin.
      - intros e [Hin|Hin]; split_elem Hin; try done;
          by apply elem_of_nil in Hin. }
  assert (forall e1 : event, tag_of e1 ∉ [tCreate; tStart; tStop] ->
            e1 ∈ (yang flags).1 -> e1 ∈ (body formatters os flags).1) as Hbody.
  { intros e1 Hts. rewrite run_eq by done. cbn [fst]. intros Hin.
    split_elem Hin; [|done|]; exfalso; revert Hin.
    - apply (tags_in_not_elem [tCreate; tStart]);
        [apply trace_started_tags|].
      intros H. apply Hts. revert H. generalize (tag_of e1). tag_sub.
    - apply (tags_in_not_elem [tStop]); [apply trace_stopped_tags|].
      intros H. apply Hts. revert H. generalize (tag_of e1). tag_sub. }
  split.
  - intros file e Hin. apply Hbody in Hin; [|tag_notin].
    apply body_read in Hin as (Hreq & [fm Hfm] & Hhelp & Herr & Hproc).
    rewrite sources_of_yang, sources_of_body, Hhelp, Hfm, Hreq by done.
    rewrite run_eq by done. cbn [fst]. split_and!; [|done|].
    + apply elem_of_app. right. apply elem_of_app. by left.
    + apply elem_of_app. right. apply elem_of_app. by left.
  - intros e Hin.
    assert (body formatters os flags = (stdin_log os ++ [error_line e], Some 1%Z))
      as Hb.
    { apply body_stdin_failed.
      destruct Hin as [Hin|Hin]; [left|right]; apply Hbody; try done;
        tag_notin. }
    rewrite run_eq by done. rewrite Hb. cbn [fst snd].
    split_and!; [done|done| |].
    + rewrite !outputs_app, outputs_trace_started, outputs_stdin_log,
        outputs_trace_stopped. done.
    + intros errs.
      apply (tags_in_not_elem [tCreate; tStart; tStop; tReadStdin; tParse;
                               tStderr]); [solve_tags|tag_notin].
Qed.

(** C1, as the program has it.  In a file-list or stdin run that passes
    semantic processing the formatter is handed one entry for each
    distinct name among the modules of the model set: as many entries as
    there are distinct names, each the entry of the first module of its
    name that the loop over [ms.Modules] meets, in strictly increasing
    order of the names.  The order of that loop is the library's and need
    not be the order of loading.  The names and their order depend only
    on the set of names that were loaded, neither on the order of the
    files nor on the order of the loop. *)
Theorem top_level_entries_are_sorted_and_distinct flags fm :
  trace_ok os flags ->
  opt_help flags = false ->
  formatters !! requested_format flags = Some fm ->
  (∀ module aux, spec_request (opt_args flags) ≠ NamedModule module aux) ->
  (opt_args flags = [] -> (stdin_loaded os).2 = None) ->
  process_errors os (opt_args flags) = [] ->
  let mods := range_Modules (processed os (opt_args flags)) in
  ∃ reps : list Module,
    outputs (yang flags).1
    = [CallFormatter fm ((fun m => ToEntry (Some m)) <$> reps)]
    ∧ length reps = length (remove_dups (Name <$> mods))
    ∧ (∀ n, n ∈ Name <$> reps ↔ n ∈ Name <$> mods)
    ∧ (∀ m, m ∈ reps -> first_named (Name m) mods = Some m)
    ∧ StronglySorted lt (Name <$> reps)
    ∧ (∀ mods' : list Module,
         (∀ n, n ∈ Name <$> mods' ↔ n ∈ Name <$> mods) ->
         top_names mods' = Name <$> reps).
Proof.
  intros Hok Hhelp Hfm Hreq Hstdin Hproc mods.
  destruct (top_entries_representatives mods) as (reps & Hent & Hnames & Hfirst).
  exists reps. split_and!.
  - rewrite outputs_yang, outputs_body, Hhelp, Hfm, <- Hent by done.
    subst mods. clear Hent Hnames Hfirst.
    destruct (opt_args flags) as [|files_0 files_1].
    + cbn [spec_request]. by rewrite Hstdin, Hproc.
    + cbv zeta. rewrite Hproc.
      destruct (spec_request (files_0 :: files_1)) as [module aux| |] eqn:E;
        [by destruct (Hreq module aux)|done|done].
  - rewrite <- (length_fmap Name), Hnames. apply length_top_names.
  - intros n. rewrite Hnames. apply elem_of_top_names.
  - done.
  - rewrite Hnames. apply top_names_sorted.
  - intros mods' Hsame. rewrite Hnames. by apply top_names_same_set.
Qed.

(** C10, as the program has it.  A file-list run goes on to semantic
    processing whatever its reads did, also when every one of them fails:
    every named file is read, in order, and the model set is processed.
    When processing reports no error and the model set holds no module,
    the formatter is called with no entry at all and the process ends
    with status 0.  (Reads that fail need not leave the model set
    empty.) *)
Theorem file_list_without_modules_is_displayed flags fm :
  trace_ok os flags ->
  opt_help flags = false ->
  formatters !! requested_format flags = Some fm ->
  spec_request (opt_args flags) = FileList (opt_args flags) ->
  CallProcess (process_errors os (opt_args flags)) ∈ (yang flags).1
  ∧ sources_of (yang flags).1 = FromFile <$> opt_args flags
  ∧ (process_errors os (opt_args flags) = [] ->
     range_Modules (processed os (opt_args flags)) = [] ->
     outputs (yang flags).1 = [CallFormatter fm []]
     ∧ (yang flags).2 = Returned
     ∧ status (yang flags).2 = 0%Z).
Proof.
  intros Hok Hhelp Hfm Hreq.
  assert (∃ files_0 files_1, opt_args flags = files_0 :: files_1) as
    (files_0 & files_1 & Hargs).
  { destruct (opt_args flags); [done|eauto]. }
  split_and!.
  - rewrite run_eq by done. cbn [fst]. unfold body.
    rewrite Hhelp, Hfm, Hreq, Hargs.
    apply elem_of_app. right. apply elem_of_app. left.
    destruct (process_errors os (files_0 :: files_1)); cbn [fst];
      apply elem_of_app; right; by left.
  - by rewrite sources_of_yang, sources_of_body, Hhelp, Hfm, Hreq.
  - intros Hproc Hnone.
    rewrite outputs_yang, outputs_body, run_eq by done. cbn [snd].
    unfold body. rewrite Hhelp, Hfm, Hreq, Hargs, <- Hargs, Hproc, Hnone.
    rewrite Hargs. done.
Qed.

End Claims.

(** ** The input resolver *)

Section InputMode.

Context {Modules Module Entry : Type} {lib : YangLib Modules Module Entry}.
Variable formatters : gmap string (formatter Entry).
Variable os : OS.

(** The library of the specification, over the same entries. *)
Context {SModule : Type}.
Variable Name_ : SModule -> string.
Variable ToEntry_ : option SModule -> Entry.
Variable nil_Entry : Entry.
Variable fs : string -> error + list SModule.
Variable parse : string -> string -> error + list SModule.
Variable process : list SModule -> list error.
Variable not_found : string -> error.

Local Abbreviation slib :=
  (spec_lib Name_ ToEntry_ nil_Entry fs parse process not_found).
Local Abbreviation event := (event Entry).
Implicit Types (flags : Flags).

Lemma spec_find_app (module : string) (ms1 ms2 : list SModule) :
  spec_find Name_ module (ms1 ++ ms2)
  = match spec_find Name_ module ms1 with
    | Some m => Some m
    | None => spec_find Name_ module ms2
    end.
Proof.
  unfold spec_find. induction ms1 as [|m ms1 IH]; simpl; [done|].
  by destruct (String.eqb (Name_ m) module).
Qed.

(** What the named-module request of the specification resolves to. *)
Lemma spec_GetModule_eq (module : string) (aux : list string) :
  spec_GetModule Name_ ToEntry_ nil_Entry fs not_found module aux
  = match spec_find Name_ module
            (foldl (fun ms src => (spec_Read fs src ms).1) [] aux) with
    | Some m => (ToEntry_ (Some m), [])
    | None =>
        match spec_find Name_ module
                (match fs "MODULES.yang" with
                 | inr mods => mods
                 | inl _ => []
                 end) with
        | Some m => (ToEntry_ (Some m), [])
        | None => (nil_Entry, [not_found module])
        end
    end.
Proof.
  unfold spec_GetModule, spec_Read at 2.
  destruct (spec_find Name_ module _) eqn:E; [done|].
  destruct (fs "MODULES.yang"); cbn [fst]; [by rewrite E|].
  by rewrite spec_find_app, E.
Qed.

(** A named-module request, once the run looks at its arguments. *)
Lemma named_module_run `{lib' : YangLib Modules' Module' Entry} flags
      (module : string) (aux : list string) :
  reaches_input formatters os flags ->
  spec_request (opt_args flags) = NamedModule module aux ->
  yang (lib := lib') formatters os flags
  = (trace_started flags
       ++ match (GetModule module aux).2 with
          | [] => [CallGetModule module aux [];
                   CallWrite (GetModule module aux).1]
          | errs => CallGetModule module aux errs :: (error_line <$> errs)
          end
       ++ trace_stopped flags,
     match (GetModule module aux).2 with
     | [] => Returned
     | _ => Exited 1
     end).
Proof.
  intros (Hok & Hhelp & fm & Hfm) Hreq. rewrite run_eq by done.
  unfold body. rewrite Hhelp, Hfm, Hreq.
  by destruct (GetModule module aux).2.
Qed.

(** C6. Once a run looks at its arguments, they alone decide where its
    input comes from, and it comes from one kind of source only.  A first
    argument that does not end in .yang is the name of a module: the one
    source is [GetModule] with that name and the remaining arguments, and
    a batch of errors that it returns ends the run with status 1, the
    errors written and nothing displayed.  With the library of the
    specification the module is the one the auxiliary files define,
    otherwise the one the default file MODULES.yang defines, and without
    either the run ends with the error of a name that is not found.  No
    argument at all means that standard input is read and parsed as the
    one source <STDIN>.  Otherwise every argument is read as a file, in
    the order of the arguments. *)
Theorem input_mode_is_decided_by_the_arguments flags :
  reaches_input formatters os flags ->
  match spec_request (opt_args flags) with
  | NamedModule module aux =>
      sources_of (yang (lib := lib) formatters os flags).1
      = [FromModule module aux]
      ∧ ((GetModule (YangLib := lib) module aux).2 ≠ [] ->
         (yang (lib := lib) formatters os flags).2 = Exited 1
         ∧ outputs (yang (lib := lib) formatters os flags).1 = []
         ∧ ∀ e, e ∈ (GetModule (YangLib := lib) module aux).2 ->
                error_line e ∈ (yang (lib := lib) formatters os flags).1)
      ∧ match spec_find Name_ module
                (foldl (fun ms src => (spec_Read fs src ms).1) [] aux) with
        | Some m =>
            outputs (yang (lib := slib) formatters os flags).1
            = [CallWrite (ToEntry_ (Some m))]
            ∧ (yang (lib := slib) formatters os flags).2 = Returned
        | None =>
            match spec_find Name_ module
                    (match fs "MODULES.yang" with
                     | inr mods => mods
                     | inl _ => []
                     end) with
            | Some m =>
                outputs (yang (lib := slib) formatters os flags).1
                = [CallWrite (ToEntry_ (Some m))]
                ∧ (yang (lib := slib) formatters os flags).2 = Returned
            | None =>
                yang (lib := slib) formatters os flags
                = (trace_started flags
                     ++ [CallGetModule module aux [not_found module];
                         error_line (not_found module)]
                     ++ trace_stopped flags, Exited 1)
                ∧ outputs (yang (lib := slib) formatters os flags).1 = []
            end
        end
  | StandardInput =>
      sources_of (yang (lib := lib) formatters os flags).1 = [FromStdin]
      ∧ ((ReadAll_Stdin os).2 = None ->
         CallParse "<STDIN>" (stdin_loaded (lib := lib) os).2
         ∈ (yang (lib := lib) formatters os flags).1)
  | FileList files =>
      sources_of (yang (lib := lib) formatters os flags).1 = FromFile <$> files
  end.
Proof.
  intros Hreach. pose proof Hreach as (Hok & Hhelp & fm & Hfm).
  rewrite sources_of_yang, sources_of_body, Hhelp, Hfm by done.
  destruct (spec_request (opt_args flags)) as [module aux| |files] eqn:Hreq.
  - split_and!; [done| |].
    + intros Herrs. rewrite (named_module_run flags module aux) by done.
      destruct (GetModule module aux).2 as [|e errs]; [done|]. cbn [fst snd].
      split_and!; [done| |].
      * rewrite !outputs_app, outputs_cons, outputs_trace_started,
          outputs_trace_stopped, outputs_error_lines. done.
      * intros e' He'. apply elem_of_app. right. apply elem_of_app. left.
        right. by apply list_elem_of_fmap_2.
    + rewrite (named_module_run (lib' := slib) flags module aux) by done.
      cbn [GetModule spec_lib]. rewrite spec_GetModule_eq.
      destruct (spec_find Name_ module _) as [m|]; cbn [fst snd].
      { by rewrite !outputs_app, !outputs_cons, outputs_trace_started,
          outputs_trace_stopped. }
      destruct (spec_find Name_ module _) as [m|]; cbn [fst snd].
      { by rewrite !outputs_app, !outputs_cons, outputs_trace_started,
          outputs_trace_stopped. }
      split; [done|].
      by rewrite !outputs_app, !outputs_cons, outputs_trace_started,
        outputs_trace_stopped.
  - split; [done|]. intros Hread. rewrite run_eq by done. cbn [fst].
    unfold body. rewrite Hhelp, Hfm, Hreq.
    assert (opt_args flags = []) as ->.
    { unfold spec_request in Hreq. destruct (opt_args flags); [done|].
      by destruct (HasSuffix _ _). }
    apply elem_of_app. right. apply elem_of_app. left.
    assert (CallParse "<STDIN>" (stdin_loaded os).2 ∈ stdin_log (Entry := Entry) os)
      as Hin.
    { unfold stdin_log. rewrite Hread. right. by left. }
    destruct (stdin_loaded os).2; cbn [fst].
    + apply elem_of_app. by left.
    + destruct (process_errors os []); cbn [fst load_log];
        apply elem_of_app; by left.
  - done.
Qed.

End InputMode.

(** ** The claims at work in the small world *)

Section DemoRuns.

Import Demo.

Local Abbreviation event := (event entry).

Ltac here := apply list_elem_of_In; vm_compute; tauto.

(** C1 fails when the loop over [ms.Modules] does not follow the order of
    loading: b.yang is loaded before a.yang and both define alpha; the
    loop meets the module of a.yang first, and that is the one whose
    entry the formatter gets. *)
Lemma first_loaded_module_need_not_win :
  let files := ["b.yang"; "a.yang"] in
  let loaded := flat_map (modules_of fs) files in
  let log := (yang (lib := DemoLibraries.lib_last_first) formatters
                (os "" None) (flags None "" false files)).1 in
  ¬ (∃ reps : list module,
       outputs log = [CallFormatter tree ((fun m => to_entry (Some m)) <$> reps)]
       ∧ ∀ m, m ∈ reps -> first_named (lib := lib) (m_name m) loaded = Some m).
Proof.
  intros files loaded log (reps & Hout & Hfirst).
  vm_compute in Hout. injection Hout as Hout.
  destruct reps as [|m reps]; [discriminate Hout|].
  pose proof (Hfirst m ltac:(by left)) as Hm.
  pose proof (first_named_Some (lib := lib) _ _ _ Hm) as [Hin _].
  apply list_elem_of_In in Hin. vm_compute in Hin.
  destruct Hin as [<-|[<-|[<-|[]]]].
  - vm_compute in Hout. discriminate Hout.
  - vm_compute in Hout. discriminate Hout.
  - vm_compute in Hm. discriminate Hm.
Defined.

(** C1 as the program has it, at work: b.yang, a missing file and a.yang
    define alpha twice and beta once; the formatter gets two entries,
    alpha before beta. *)
Lemma top_level_entries_witness :
  let fl := flags None "" false ["b.yang"; "nope.yang"; "a.yang"] in
  let mods := range_Modules (YangLib := lib)
                (processed (lib := lib) (os "" None) (opt_args fl)) in
  ∃ reps : list module,
    outputs (demo "" None fl).1
    = [CallFormatter tree ((fun m => to_entry (Some m)) <$> reps)]
    ∧ length reps = length (remove_dups (m_name <$> mods))
    ∧ (∀ n, n ∈ m_name <$> reps ↔ n ∈ m_name <$> mods)
    ∧ (∀ m, m ∈ reps -> first_named (lib := lib) (m_name m) mods = Some m)
    ∧ StronglySorted lt (m_name <$> reps)
    ∧ (∀ mods' : list module,
         (∀ n, n ∈ m_name <$> mods' ↔ n ∈ m_name <$> mods) ->
         top_names (lib := lib) mods' = m_name <$> reps).
Proof.
  intros fl.
  apply (top_level_entries_are_sorted_and_distinct (lib := lib) formatters
           (os "" None) fl tree).
  - by left.
  - reflexivity.
  - vm_compute. reflexivity.
  - intros module aux. vm_compute. discriminate.
  - intros H. vm_compute in H. discriminate.
  - vm_compute. reflexivity.
Defined.

(** C2 at work: broken.yang does not pass semantic processing. *)
Lemma processing_errors_witness :
  let fl := flags None "/tmp/trace" false ["broken.yang"; "a.yang"] in
  let errs := ["broken: unknown import"; "broken: unknown type"] in
  (CallProcess errs ∈ (demo "" None fl).1 ∧ errs ≠ [])
  ∧ (demo "" None fl).2 = Exited 1
  ∧ status (demo "" None fl).2 = 1%Z
  ∧ outputs (demo "" None fl).1 = []
  ∧ ∃ l : list event,
      (demo "" None fl).1
      = l ++ CallProcess errs :: (error_line <$> errs) ++ trace_stopped fl
      ∧ tags_in [tCreate; tStart; tReadStdin; tParse; tRead; tStderr] l.
Proof.
  intros fl errs.
  assert (CallProcess errs ∈ (demo "" None fl).1) as H1 by here.
  assert (errs ≠ []) as H2 by discriminate.
  split; [done|].
  exact (processing_errors_are_terminal (lib := lib) formatters (os "" None)
           fl errs H1 H2).
Defined.

(** C3 fails in named-module mode: the format types is requested, and the
    module is written by [Write], no formatter is called. *)
Lemma named_module_ignores_the_format :
  let fl := flags (Some "types") "" false ["gamma"] in
  ¬ (outputs (demo "" None fl).1 ≠ [] ->
     ∃ fm entries,
       formatters !! requested_format fl = Some fm
       ∧ outputs (demo "" None fl).1 = [CallFormatter fm entries]).
Proof.
  intros fl H. destruct H as (fm & entries & _ & H).
  - vm_compute. discriminate.
  - vm_compute in H. discriminate.
Defined.

(** C3 as the program has it, at work in both modes. *)
Lemma output_is_dispatched_witness :
  let fl1 := flags (Some "types") "" false ["gamma"] in
  let fl2 := flags (Some "types") "" false ["a.yang"] in
  (outputs (demo "" None fl1).1 ≠ []
   ∧ outputs (demo "" None fl1).1 = [CallWrite "gamma@MODULES.yang"])
  ∧ (outputs (demo "" None fl2).1 ≠ []
     ∧ outputs (demo "" None fl2).1
       = [CallFormatter types ["alpha@a.yang"; "beta@a.yang"]]).
Proof.
  intros fl1 fl2.
  assert (outputs (demo "" None fl1).1 ≠ []) as H1
    by (vm_compute; discriminate).
  assert (outputs (demo "" None fl2).1 ≠ []) as H2
    by (vm_compute; discriminate).
  split; (split; [done|]).
  - destruct (output_is_dispatched (lib := lib) formatters (os "" None)
                fl1 H1) as (fm & _ & _ & H).
    exact H.
  - destruct (output_is_dispatched (lib := lib) formatters (os "" None)
                fl2 H2) as (fm & Hfm & _ & H).
    vm_compute in Hfm. injection Hfm as <-. exact H.
Defined.

(** C4 fails when the file of [--trace] cannot be created: the status is
    1, and the usage is not printed. *)
Lemma help_after_failed_trace :
  let fl := flags None "/root/trace" true ["a.yang"] in
  ¬ (opt_help fl = true ->
     status (demo "" None fl).2 = 0%Z ∧ PrintUsage ∈ (demo "" None fl).1).
Proof.
  intros fl H. destruct H as [H _]; [reflexivity|].
  vm_compute in H. discriminate.
Defined.

(** C4 as the program has it, at work with a trace that can be created
    and with one that cannot. *)
Lemma help_loads_no_input_witness :
  let fl := flags (Some "xml") "/tmp/trace" true ["a.yang"] in
  let fl' := flags (Some "xml") "/root/trace" true ["a.yang"] in
  (opt_help fl = true
   ∧ trace_ok (os "" None) fl
   ∧ sources_of (demo "" None fl).1 = []
   ∧ outputs (demo "" None fl).1 = []
   ∧ (demo "" None fl).2 = Exited 0)
  ∧ (opt_help fl' = true
     ∧ ¬ trace_ok (os "" None) fl'
     ∧ sources_of (demo "" None fl').1 = []
     ∧ (demo "" None fl').2 = Exited 1
     ∧ (PrintUsage ∉ (demo "" None fl').1)).
Proof.
  intros fl fl'.
  assert (trace_ok (os "" None) fl) as Hok
    by (right; vm_compute; reflexivity).
  assert (¬ trace_ok (os "" None) fl') as Hno.
  { intros [H|H]; vm_compute in H; discriminate H. }
  split.
  - destruct (help_loads_no_input (lib := lib) formatters (os "" None) fl
                eq_refl) as (H1 & H2 & H3 & _).
    destruct (H3 Hok) as [H4 _].
    split_and!; [reflexivity|exact Hok|exact H1|exact H2|exact H4].
  - destruct (help_loads_no_input (lib := lib) formatters (os "" None) fl'
                eq_refl) as (H1 & _ & _ & H3).
    destruct (H3 Hno) as (H4 & H5 & _).
    split_and!; [reflexivity|exact Hno|exact H1|exact H4|exact H5].
Defined.

(** C5 at work: the file nope.yang cannot be read, a.yang is read after
    it; and standard input that does not parse ends the run. *)
Lemma file_and_stdin_errors_witness :
  let fl1 := flags None "" false ["nope.yang"; "a.yang"] in
  let fl2 := flags None "" false [] in
  let e1 := "open nope.yang: no such file or directory" in
  let e2 := "<STDIN>: syntax error" in
  (CallRead "nope.yang" (Some e1) ∈ (demo "" None fl1).1
   ∧ error_line e1 ∈ (demo "" None fl1).1
   ∧ sources_of (demo "" None fl1).1
     = [FromFile "nope.yang"; FromFile "a.yang"])
  ∧ (CallParse "<STDIN>" (Some e2) ∈ (demo "module" None fl2).1
     ∧ status (demo "module" None fl2).2 = 1%Z
     ∧ outputs (demo "module" None fl2).1 = []).
Proof.
  intros fl1 fl2 e1 e2.
  assert (CallRead "nope.yang" (Some e1) ∈ (demo "" None fl1).1) as H1 by here.
  assert (CallParse "<STDIN>" (Some e2) ∈ (demo "module" None fl2).1) as H2
    by here.
  split; (split; [done|]).
  - destruct (file_errors_are_skipped_stdin_errors_are_terminal (lib := lib)
                formatters (os "" None) fl1) as [H _].
    destruct (H _ _ H1) as (H3 & H4 & _). split; [exact H3|exact H4].
  - destruct (file_errors_are_skipped_stdin_errors_are_terminal (lib := lib)
                formatters (os "module" None) fl2) as [_ H].
    destruct (H e2 (or_intror H2)) as (_ & H3 & H4 & _).
    split; [exact H3|exact H4].
Defined.

(** C6 at work: gamma is not defined by a.yang and is resolved from
    MODULES.yang; zeta is defined nowhere; without arguments standard
    input is the source; with files, the files are. *)
Lemma input_mode_witness :
  let fl1 := flags None "" false ["gamma"; "a.yang"] in
  let fl2 := flags None "" false ["zeta"; "a.yang"] in
  let fl3 := flags None "" false [] in
  let fl4 := flags None "" false ["b.yang"; "a.yang"] in
  (reaches_input formatters (os "" None) fl1
   ∧ sources_of (demo "" None fl1).1 = [FromModule "gamma" ["a.yang"]]
   ∧ outputs (demo "" None fl1).1 = [CallWrite "gamma@MODULES.yang"])
  ∧ (reaches_input formatters (os "" None) fl2
     ∧ demo "" None fl2
       = ([CallGetModule "zeta" ["a.yang"] ["zeta: module not found"];
           error_line "zeta: module not found"], Exited 1))
  ∧ (reaches_input formatters (os "module delta {}" None) fl3
     ∧ sources_of (demo "module delta {}" None fl3).1 = [FromStdin])
  ∧ (reaches_input formatters (os "" None) fl4
     ∧ sources_of (demo "" None fl4).1
       = [FromFile "b.yang"; FromFile "a.yang"]).
Proof.
  intros fl1 fl2 fl3 fl4.
  assert (∀ data fl, opt_trace fl = "" -> opt_help fl = false ->
            opt_format fl = None ->
            reaches_input formatters (os data None) fl) as Hreach.
  { intros data fl Ht Hh Hf. split_and!; [by left|done|].
    exists tree. unfold requested_format. rewrite Hf. vm_compute.
    reflexivity. }
  split; [|split; [|split]]; (split; [by apply Hreach|]).
  - pose proof (input_mode_is_decided_by_the_arguments (lib := lib)
                  formatters (os "" None) m_name to_entry "<nil>" fs parse
                  process not_found fl1 (Hreach "" fl1 eq_refl eq_refl eq_refl))
      as H.
    destruct H as (H1 & _ & H2). split; [exact H1|].
    destruct H2 as [H2 _]. exact H2.
  - pose proof (input_mode_is_decided_by_the_arguments (lib := lib)
                  formatters (os "" None) m_name to_entry "<nil>" fs parse
                  process not_found fl2 (Hreach "" fl2 eq_refl eq_refl eq_refl))
      as H.
    destruct H as (_ & _ & H2). destruct H2 as [H2 _]. exact H2.
  - pose proof (input_mode_is_decided_by_the_arguments (lib := lib)
                  formatters (os "module delta {}" None) m_name to_entry
                  "<nil>" fs parse process not_found fl3
                  (Hreach _ fl3 eq_refl eq_refl eq_refl)) as H.
    destruct H as [H1 _]. exact H1.
  - exact (input_mode_is_decided_by_the_arguments (lib := lib)
             formatters (os "" None) m_name to_entry "<nil>" fs parse
             process not_found fl4 (Hreach "" fl4 eq_refl eq_refl eq_refl)).
Defined.

(** C7 fails with [--help]: the format xml is not registered, and the
    process prints the help and ends with status 0. *)
Lemma help_with_unregistered_format :
  let fl := flags (Some "xml") "" true [] in
  ¬ (formatters !! requested_format fl = None ->
     status (demo "" None fl).2 = 1%Z).
Proof.
  intros fl H. assert (formatters !! requested_format fl = None) as Hnone
    by (vm_compute; reflexivity).
  apply H in Hnone. vm_compute in Hnone. discriminate.
Defined.

(** C7 as the program has it, at work: xml is rejected, types is not. *)
Lemma format_is_checked_witness :
  let fl1 := flags (Some "xml") "/tmp/trace" false ["a.yang"] in
  let fl2 := flags (Some "types") "" false ["a.yang"] in
  (formatters !! requested_format fl1 = None
   ∧ opt_help fl1 = false
   ∧ trace_ok (os "" None) fl1
   ∧ demo "" None fl1
     = ([Create "/tmp/trace" None; trace_Start;
         invalid_format_line "xml" ["tree"; "types"]; trace_Stop],
        Exited 1))
  ∧ (is_Some (formatters !! requested_format fl2)
     ∧ (demo "" None fl2).2 ≠ Panicked).
Proof.
  intros fl1 fl2.
  assert (formatters !! requested_format fl1 = None) as H1
    by (vm_compute; reflexivity).
  assert (trace_ok (os "" None) fl1) as H2
    by (right; vm_compute; reflexivity).
  assert (is_Some (formatters !! requested_format fl2)) as H3
    by (exists types; vm_compute; reflexivity).
  split.
  - split_and!; [exact H1|reflexivity|exact H2|].
    destruct (format_is_checked_before_input (lib := lib) formatters
                (os "" None) fl1) as [H _].
    destruct (H H1 eq_refl H2) as [H4 _]. exact H4.
  - split; [exact H3|].
    destruct (format_is_checked_before_input (lib := lib) formatters
                (os "" None) fl2) as [_ H].
    destruct (H H3) as [H4 _]. exact H4.
Defined.

(** C8 at work on every way a traced run ends: the return from [main]
    in both modes, the help, an invalid format, standard input that does
    not parse, a module that is not found, and processing errors. *)
Lemma trace_stopped_witness :
  let traced_run data format help args :=
    demo data None (flags format "/tmp/trace" help args) in
  let stopped (r : list event * termination) :=
    ∃ l : list event,
      r.1 = [Create "/tmp/trace" None; trace_Start] ++ l ++ [trace_Stop]
      ∧ (trace_Start ∉ l) ∧ (trace_Stop ∉ l) in
  ("/tmp/trace" ≠ "" ∧ os_Create (os "" None) "/tmp/trace" = None)
  ∧ ((traced_run "" None false ["a.yang"]).2 = Returned
     ∧ stopped (traced_run "" None false ["a.yang"]))
  ∧ ((traced_run "" None false ["gamma"]).2 = Returned
     ∧ stopped (traced_run "" None false ["gamma"]))
  ∧ ((traced_run "" None true ["a.yang"]).2 = Exited 0
     ∧ stopped (traced_run "" None true ["a.yang"]))
  ∧ ((traced_run "" (Some "xml") false ["a.yang"]).2 = Exited 1
     ∧ stopped (traced_run "" (Some "xml") false ["a.yang"]))
  ∧ ((traced_run "module" None false []).2 = Exited 1
     ∧ stopped (traced_run "module" None false []))
  ∧ ((traced_run "" None false ["zeta"]).2 = Exited 1
     ∧ stopped (traced_run "" None false ["zeta"]))
  ∧ ((traced_run "" None false ["broken.yang"]).2 = Exited 1
     ∧ stopped (traced_run "" None false ["broken.yang"])).
Proof.
  intros traced_run stopped.
  assert ("/tmp/trace" ≠ "") as H1 by discriminate.
  assert (∀ data, os_Create (os data None) "/tmp/trace" = None) as H2
    by (intros data; vm_compute; reflexivity).
  assert (∀ data format help args,
            stopped (traced_run data format help args)) as H.
  { intros data format help args.
    exact (trace_stopped_on_every_exit (lib := lib) formatters (os data None)
             (flags format "/tmp/trace" help args) H1 (H2 data)). }
  split; [split; [exact H1|exact (H2 "")]|].
  repeat (split; [split; [vm_compute; reflexivity|apply H]|]).
  split; [vm_compute; reflexivity|apply H].
Defined.

(** C10 fails for a file that is read in part: the one file named fails
    to read, processing reports no error, and the formatter is handed the
    entry of the module that the file defined before it failed. *)
Lemma failed_file_may_leave_a_module :
  let log := (yang (lib := DemoLibraries.lib_partial) formatters (os "" None)
                (flags None "" false ["partial.yang"])).1 in
  ¬ ((∀ file r, CallRead file r ∈ log -> is_Some r) ->
     (∀ errs, CallProcess errs ∈ log -> errs = []) ->
     outputs log = [CallFormatter tree []]).
Proof.
  intros log H.
  assert (∀ file r, CallRead file r ∈ log -> is_Some r) as H1.
  { intros file r Hin. apply list_elem_of_In in Hin. vm_compute in Hin.
    repeat (destruct Hin as [Hin|Hin]; try discriminate Hin);
      [|destruct Hin].
    injection Hin as _ <-. eexists. reflexivity. }
  assert (∀ errs, CallProcess errs ∈ log -> errs = []) as H2.
  { intros errs Hin. apply list_elem_of_In in Hin. vm_compute in Hin.
    repeat (destruct Hin as [Hin|Hin]; try discriminate Hin);
      [|destruct Hin].
    injection Hin as <-. reflexivity. }
  specialize (H H1 H2). vm_compute in H. discriminate H.
Defined.

(** C10 as the program has it, at work: neither file can be read, and
    here no module is left in the model set. *)
Lemma file_list_without_modules_witness :
  let fl := flags None "" false ["nope.yang"; "none.yang"] in
  (trace_ok (os "" None) fl
   ∧ opt_help fl = false
   ∧ formatters !! requested_format fl = Some tree
   ∧ spec_request (opt_args fl) = FileList (opt_args fl))
  ∧ (process_errors (lib := lib) (os "" None) (opt_args fl) = []
     ∧ range_Modules (YangLib := lib)
         (processed (lib := lib) (os "" None) (opt_args fl)) = [])
  ∧ CallProcess [] ∈ (demo "" None fl).1
  ∧ sources_of (demo "" None fl).1
    = [FromFile "nope.yang"; FromFile "none.yang"]
  ∧ outputs (demo "" None fl).1 = [CallFormatter tree []]
  ∧ (demo "" None fl).2 = Returned
  ∧ status (demo "" None fl).2 = 0%Z.
Proof.
  intros fl.
  assert (trace_ok (os "" None) fl) as H1 by (by left).
  assert (formatters !! requested_format fl = Some tree) as H2
    by (vm_compute; reflexivity).
  assert (spec_request (opt_args fl) = FileList (opt_args fl)) as H3
    by (vm_compute; reflexivity).
  assert (process_errors (lib := lib) (os "" None) (opt_args fl) = []) as H6
    by (vm_compute; reflexivity).
  assert (range_Modules (YangLib := lib)
            (processed (lib := lib) (os "" None) (opt_args fl)) = []) as H7
    by (vm_compute; reflexivity).
  destruct (file_list_without_modules_is_displayed (lib := lib) formatters
              (os "" None) fl tree H1 eq_refl H2 H3) as (Ha & Hb & Hc).
  destruct (Hc H6 H7) as (He & Hf & Hg).
  split; [done|]. split; [done|].
  split; [exact Ha|]. split; [exact Hb|]. done.
Defined.

End DemoRuns.

(** ** More about the registry: sequences of registrations *)

Section RegistrySequences.

Context {Entry : Type}.
Implicit Types (fm : formatter Entry) (fms : list (formatter Entry))
         (formatters : gmap string (formatter Entry)) (n : string).

Lemma register_all_snoc fms fm formatters :
  register_all (fms ++ [fm]) formatters
  = register fm (register_all fms formatters).
Proof. unfold register_all. by rewrite foldl_app. Qed.

Lemma last_named_snoc n fms fm :
  last_named n (fms ++ [fm])
  = if decide (name fm = n) then Some fm else last_named n fms.
Proof.
  unfold last_named. rewrite filter_app, filter_cons, filter_nil.
  case_decide; [apply last_snoc|by rewrite app_nil_r].
Qed.

Lemma register_all_lookup_last fms formatters n :
  register_all fms formatters !! n
  = match last_named n fms with
    | Some fm => Some fm
    | None => formatters !! n
    end.
Proof.
  induction fms as [|fm fms IH] using rev_ind; [done|].
  rewrite register_all_snoc, last_named_snoc. unfold register.
  rewrite lookup_insert. case_decide; [done|]. apply IH.
Qed.

(** X1. After any sequence of registrations the formatter found under a
    name is the one registered last under that name; a name under which
    nothing was registered keeps what the registry held before. *)
Theorem registrations_last_wins fms formatters n :
  register_all fms formatters !! n
  = match last_named n fms with
    | Some fm => Some fm
    | None => formatters !! n
    end.
Proof. apply register_all_lookup_last. Qed.

Lemma last_named_Some n fms fm :
  last_named n fms = Some fm -> fm ∈ fms ∧ name fm = n.
Proof.
  unfold last_named. intros H. apply last_Some_elem_of in H.
  by apply list_elem_of_filter in H as [? ?].
Qed.

Lemma last_named_None n fms :
  last_named n fms = None <-> n ∉ name <$> fms.
Proof.
  unfold last_named. rewrite last_None. split.
  - intros H [fm [-> Hin]]%list_elem_of_fmap.
    by apply (filter_nil_not_elem_of _ _ fm) in H.
  - intros H. destruct (filter _ fms) as [|fm l] eqn:E; [done|].
    assert (fm ∈ filter (fun fm => name fm = n) fms) as Hin
      by (rewrite E; by left).
    apply list_elem_of_filter in Hin as [<- Hin]. destruct H.
    by apply list_elem_of_fmap_2.
Qed.

(** X2. A registry that was filled by [register] alone is keyed by the
    names of its formatters, and its sorted list of formats holds exactly
    the names that were registered, each once. *)
Theorem registered_names_are_the_registered_formats fms :
  keyed_by_name (register_all fms formatters_init)
  ∧ registered_formats (register_all fms formatters_init)
    = sort_Strings (remove_dups (name <$> fms)).
Proof.
  split.
  - induction fms as [|fm fms IH] using rev_ind; [apply keyed_by_name_init|].
    rewrite register_all_snoc. by apply keyed_by_name_register.
  - unfold registered_formats. apply sort_Strings_same_set.
    + apply NoDup_fst_map_to_list.
    + apply NoDup_remove_dups.
    + intros n. rewrite elem_of_remove_dups.
      rewrite list_elem_of_fmap. split.
      * intros ([k fm] & -> & H). apply elem_of_map_to_list in H.
        rewrite register_all_lookup_last in H. simpl.
        destruct (last_named k fms) as [fm'|] eqn:E; [|done].
        apply last_named_Some in E as [E <-]. by apply list_elem_of_fmap_2.
      * intros Hin.
        destruct (last_named n fms) as [fm|] eqn:E;
          [|by apply last_named_None in E].
        exists (n, fm). split; [done|]. apply elem_of_map_to_list.
        by rewrite register_all_lookup_last, E.
Qed.

Lemma same_name_at_most_one fms n :
  NoDup (name <$> fms) ->
  (length (filter (fun fm => name fm = n) fms) ≤ 1)%nat.
Proof.
  intros Hnd.
  assert (NoDup (name <$> filter (fun fm => name fm = n) fms)) as Hnd'.
  { induction fms as [|fm fms IH]; [constructor|].
    rewrite fmap_cons in Hnd. apply NoDup_cons in Hnd as [Hfm Hnd].
    rewrite filter_cons. case_decide; [|by apply IH].
    rewrite fmap_cons. apply NoDup_cons. split; [|by apply IH].
    intros [fm' [Heq Hin]]%list_elem_of_fmap. apply Hfm.
    apply list_elem_of_filter in Hin as [_ Hin]. rewrite Heq.
    by apply list_elem_of_fmap_2. }
  assert (Forall (fun fm => name fm = n) (filter (fun fm => name fm = n) fms))
    as Hall.
  { apply Forall_forall. intros fm Hin.
    by apply list_elem_of_filter in Hin as [? _]. }
  destruct (filter _ fms) as [|fm1 [|fm2 l]]; simpl; [lia|lia|].
  exfalso. apply Forall_cons in Hall as [H1 Hall].
  apply Forall_cons in Hall as [H2 _].
  rewrite !fmap_cons, H1, H2 in Hnd'. apply NoDup_cons in Hnd' as [Hnd' _].
  apply Hnd'. by left.
Qed.

(** X3. When the formatters have different names the order in which they
    are registered does not matter: two orders give the same registry. *)
Theorem registration_order_is_irrelevant fms fms' formatters :
  NoDup (name <$> fms) ->
  fms ≡ₚ fms' ->
  register_all fms formatters = register_all fms' formatters.
Proof.
  intros Hnd Hperm. apply map_eq. intros n.
  rewrite !register_all_lookup_last.
  assert (last_named n fms = last_named n fms') as ->; [|done].
  unfold last_named.
  pose proof (same_name_at_most_one fms n Hnd) as Hlen.
  assert (filter (fun fm => name fm = n) fms
          ≡ₚ filter (fun fm => name fm = n) fms') as Hf by (by rewrite Hperm).
  destruct (filter _ fms) as [|fm1 [|fm2 l]]; simpl in Hlen; [| |lia].
  - by apply Permutation_nil in Hf as ->.
  - by apply Permutation_length_1_inv in Hf as ->.
Qed.

End RegistrySequences.

(** ** More about whole runs *)

Section MoreRuns.

Context {Modules Module Entry : Type} {lib : YangLib Modules Module Entry}.
Variable formatters : gmap string (formatter Entry).
Variable os : OS.

Local Abbreviation event := (event Entry).
Local Abbreviation yang := (yang formatters os).
Implicit Types (l log : list event) (flags : Flags).

(** X4. When the file of [--trace] cannot be created the process writes
    the error of [os.Create] and ends with status 1 at once, whatever the
    other flags and arguments are: the trace is not started, the help is
    not printed, no input is loaded and nothing is displayed. *)
Theorem unwritable_trace_is_terminal flags (e : error) :
  opt_trace flags ≠ "" ->
  os_Create os (opt_trace flags) = Some e ->
  yang flags = ([Create (opt_trace flags) (Some e); error_line e], Exited 1)
  ∧ sources_of (yang flags).1 = []
  ∧ outputs (yang flags).1 = []
  ∧ tags_in [tCreate; tStderr] (yang flags).1.
Proof.
  intros Hne He. rewrite (run_trace_failed _ _ _ e) by done.
  split_and!; [done|done|done|]. cbn [fst]. solve_tags.
Qed.

(** X5. Without [--trace] a run creates no file and neither starts nor
    stops a trace. *)
Theorem no_trace_without_the_flag flags :
  opt_trace flags = "" ->
  tags_in [tStderr; tPrintUsage; tReadStdin; tParse; tRead; tGetModule;
           tProcess; tWrite; tFormatter] (yang flags).1.
Proof.
  intros Hno. rewrite run_eq by (by left). cbn [fst].
  unfold trace_started, trace_stopped.
  apply traced_false in Hno as ->. rewrite app_nil_r. apply body_tags.
Qed.

Lemma body_without_trace flags :
  body formatters os (without_trace flags) = body formatters os flags.
Proof. done. Qed.

(** X6. Tracing does not change what a run does: when the trace file can
    be created, the run is the run without [--trace], between the start
    and the stop of the trace, and it ends the same way. *)
Theorem tracing_is_transparent flags :
  trace_ok os flags ->
  yang flags
  = (trace_started flags ++ (yang (without_trace flags)).1
       ++ trace_stopped flags,
     (yang (without_trace flags)).2).
Proof.
  intros Hok. rewrite (run_eq _ _ flags) by done.
  rewrite (run_eq _ _ (without_trace flags)) by (by left).
  rewrite body_without_trace. cbn [fst snd].
  by rewrite app_nil_r.
Qed.

Lemma body_end flags :
  match (body formatters os flags).2 with
  | None => outputs (body formatters os flags).1 ≠ [] ∧ opt_help flags = false
  | Some c =>
      outputs (body formatters os flags).1 = []
      ∧ ((c = 0%Z ∧ opt_help flags = true) ∨ (c = 1%Z ∧ opt_help flags = false))
  end.
Proof.
  rewrite outputs_body. unfold body.
  destruct (opt_help flags); [cbn [snd]; by eauto|].
  destruct (formatters !! requested_format flags) as [fm|]; [|cbn; by eauto].
  destruct (spec_request (opt_args flags)).
  - destruct (GetModule module auxiliary).2; cbn [snd]; by eauto.
  - destruct (opt_args flags), (stdin_loaded os).2;
      try destruct (process_errors os _); cbn [snd]; by eauto.
  - destruct (opt_args flags), (stdin_loaded os).2;
      try destruct (process_errors os _); cbn [snd]; by eauto.
Qed.

(** X7. A process that exits does so with status 0 or with status 1.
    The exit with status 0 is that of [--help] with a usable trace, and
    no other.  [main] returns only after something was handed standard
    output. *)
Theorem exit_status_is_0_or_1 flags :
  (∀ c, (yang flags).2 = Exited c -> c = 0%Z ∨ c = 1%Z)
  ∧ ((yang flags).2 = Exited 0 ↔ opt_help flags = true ∧ trace_ok os flags)
  ∧ ((yang flags).2 = Returned -> outputs (yang flags).1 ≠ []).
Proof.
  destruct (trace_cases os flags) as [Hok|(Hno & e & He)].
  - rewrite outputs_yang, run_eq by done. cbn [snd].
    pose proof (body_end flags) as H.
    destruct (body formatters os flags).2 as [c|].
    + destruct H as [-> [[-> Hh]|[-> Hh]]]; rewrite Hh;
        split_and!; try done.
      * intros c [= <-]. by left.
      * intros c [= <-]. by right.
      * split; [done|by intros [? _]].
    + destruct H as [H Hh]. rewrite Hh. split_and!; [done| |done].
      split; [done|by intros [? _]].
  - rewrite (run_trace_failed _ _ _ e) by done. cbn [fst snd].
    split_and!; [intros c [= <-]; by right| |done]. split; [done|].
    intros [_ [Hok|Hok]]; [done|]. by rewrite Hok in He.
Qed.

(** X8. With a format that is not registered no input is ever loaded and
    nothing is ever displayed, whatever the other flags and arguments
    are; unless [--help] was given the status is 1. *)
Theorem unregistered_format_reads_nothing flags :
  formatters !! requested_format flags = None ->
  sources_of (yang flags).1 = []
  ∧ outputs (yang flags).1 = []
  ∧ (opt_help flags = false -> (yang flags).2 = Exited 1).
Proof.
  intros Hnone. destruct (trace_cases os flags) as [Hok|(Hno & e & He)].
  - rewrite sources_of_yang, outputs_yang, run_eq by done.
    rewrite sources_of_body, outputs_body. unfold body. rewrite Hnone.
    destruct (opt_help flags); split_and!; try done.
  - by rewrite (run_trace_failed _ _ _ e).
Qed.

(** X9. In named-module mode the run does not depend on the format that
    is requested, as long as it is a registered one: the module is
    written in the same way. *)
Theorem named_module_run_ignores_the_format
        (format1 format2 traceP : string) (args : list string)
        (module : string) (aux : list string) :
  let flags1 := {| opt_format := Some format1; opt_trace := traceP;
                   opt_help := false; opt_args := args |} in
  let flags2 := {| opt_format := Some format2; opt_trace := traceP;
                   opt_help := false; opt_args := args |} in
  is_Some (formatters !! format1) ->
  is_Some (formatters !! format2) ->
  spec_request args = NamedModule module aux ->
  yang flags1 = yang flags2.
Proof.
  intros flags1 flags2 [fm1 H1] [fm2 H2] Hreq.
  destruct (trace_cases os flags1) as [Hok|(Hno & e & He)].
  - rewrite (run_eq _ _ flags1), (run_eq _ _ flags2) by done.
    subst flags1 flags2. unfold body.
    change (requested_format {| opt_format := Some format1; opt_trace := traceP;
                                opt_help := false; opt_args := args |})
      with format1.
    change (requested_format {| opt_format := Some format2; opt_trace := traceP;
                                opt_help := false; opt_args := args |})
      with format2.
    cbn [opt_help opt_args]. by rewrite H1, H2, Hreq.
  - rewrite (run_trace_failed _ _ flags1 e), (run_trace_failed _ _ flags2 e);
      done.
Qed.

End MoreRuns.

(** ** More about the top level modules *)

Lemma StronglySorted_NoDup_lt (x : list string) :
  StronglySorted lt x -> NoDup x.
Proof.
  induction 1 as [|s l Hs IH Hall]; [constructor|].
  apply NoDup_cons. split; [|done]. intros Hin.
  rewrite Forall_forall in Hall. by apply (lt_irrefl s), Hall.
Qed.

Section MoreTopModules.

Context {Modules Module Entry : Type} {lib : YangLib Modules Module Entry}.
Implicit Types (l : list Module) (m : Module) (n : string).

(** X10. Modules whose names were already met do not change what is
    displayed: neither the names nor the entries.  Only the first module
    of a name counts. *)
Theorem later_modules_of_known_names_are_ignored l l' :
  (∀ m, m ∈ l' -> Name m ∈ Name <$> l) ->
  top_entries (l ++ l') = top_entries l.
Proof.
  intros Hknown. rewrite !top_entries_eq.
  assert (top_names (l ++ l') = top_names l) as ->.
  { apply top_names_same_set. intros n. rewrite fmap_app, elem_of_app.
    split; [|by left]. intros [?|Hin]; [done|].
    apply list_elem_of_fmap in Hin as (m & -> & Hm). by apply Hknown. }
  apply list_fmap_ext. intros i n Hn. f_equal.
  rewrite first_named_app.
  apply list_elem_of_lookup_2, elem_of_top_names in Hn.
  by destruct (first_named_is_Some l n Hn) as [m ->].
Qed.

Lemma same_name_same_module l m1 m2 :
  NoDup (Name <$> l) -> m1 ∈ l -> m2 ∈ l -> Name m1 = Name m2 -> m1 = m2.
Proof.
  induction l as [|m l IH]; intros Hnd H1 H2 Heq.
  - by apply elem_of_nil in H1.
  - rewrite fmap_cons in Hnd. apply NoDup_cons in Hnd as [Hm Hnd].
    apply elem_of_cons in H1 as [->|H1]; apply elem_of_cons in H2 as [->|H2].
    + done.
    + destruct Hm. rewrite Heq. by apply list_elem_of_fmap_2.
    + destruct Hm. rewrite <- Heq. by apply list_elem_of_fmap_2.
    + by apply IH.
Qed.

(** X11. When no two modules have the same name, every module is
    displayed, exactly once: the entries are those of the modules, in
    another order. *)
Theorem modules_of_distinct_names_are_all_displayed l :
  NoDup (Name <$> l) ->
  top_entries l ≡ₚ (fun m => ToEntry (Some m)) <$> l.
Proof.
  intros Hnd.
  destruct (top_entries_representatives l) as (reps & -> & Hnames & Hfirst).
  apply fmap_Permutation, NoDup_Permutation.
  - apply (NoDup_fmap_1 Name). rewrite Hnames.
    eapply StronglySorted_NoDup_lt, top_names_sorted.
  - by apply (NoDup_fmap_1 Name).
  - intros m. split.
    + intros Hm. by apply Hfirst, first_named_Some in Hm as [? _].
    + intros Hm.
      assert (Name m ∈ Name <$> reps) as Hin.
      { rewrite Hnames. apply elem_of_top_names. by apply list_elem_of_fmap_2. }
      apply list_elem_of_fmap in Hin as (m' & Heq & Hm').
      pose proof (Hfirst m' Hm') as H. apply first_named_Some in H as [H _].
      by rewrite (same_name_same_module l m m' Hnd Hm H Heq).
Qed.

End MoreTopModules.

(** ** Names that end in .yang *)

Module HasSuffixFacts.

Lemma length_app (s t : string) :
  String.length (s +:+ t) = (String.length s + String.length t)%nat.
Proof. induction s as [|a s IH]; simpl; [done|by rewrite IH]. Qed.

Lemma substring_all (s : string) : String.substring 0 (String.length s) s = s.
Proof. induction s as [|a s IH]; simpl; [done|by rewrite IH]. Qed.

Lemma substring_app_r (p s : string) :
  String.substring (String.length p) (String.length s) (p +:+ s) = s.
Proof. induction p as [|a p IH]; simpl; [apply substring_all|done]. Qed.

Lemma substring_split (s : string) (n : nat) :
  (n <= String.length s)%nat ->
  s = String.substring 0 n s
        +:+ String.substring n (String.length s - n) s.
Proof.
  revert n. induction s as [|a s IH]; intros [|n] Hn; simpl in *;
    try done; try lia.
  - by rewrite substring_all.
  - change (String a s
            = String a (String.substring 0 n s
                          +:+ String.substring n (String.length s - n) s)).
    f_equal. apply IH. lia.
Qed.

(** [strings.HasSuffix] holds exactly of the strings that end with the
    suffix. *)
Lemma HasSuffix_iff (s suffix : string) :
  HasSuffix s suffix = true <-> ∃ p, s = p +:+ suffix.
Proof.
  unfold HasSuffix. rewrite andb_true_iff, Nat.leb_le, String.eqb_eq. split.
  - intros [Hlen Heq]. exists (String.substring 0 (String.length s - String.length suffix) s).
    pose proof (substring_split s (String.length s - String.length suffix))
      as H.
    replace (String.length s - (String.length s - String.length suffix))%nat
      with (String.length suffix) in H by lia.
    rewrite Heq in H. apply H. lia.
  - intros [p ->]. rewrite length_app. split; [lia|].
    replace (String.length p + String.length suffix - String.length suffix)%nat
      with (String.length p) by lia.
    apply substring_app_r.
Qed.

End HasSuffixFacts.

(** ** More about what a log holds *)

Section MoreLogs.

Context {Modules Module Entry : Type} {lib : YangLib Modules Module Entry}.
Variable formatters : gmap string (formatter Entry).
Variable os : OS.

Local Abbreviation M := (M Entry).
Local Abbreviation event := (event Entry).
Local Abbreviation yang := (yang formatters os).
Implicit Types (l log : list event) (flags : Flags) (s : proc).

(** X12. [exitIfError] does nothing at all for an empty batch.  For any
    other batch it writes one line for each error, in order, and then
    calls [stop] with status 1; it leaves the variable [stop] and the
    deferred calls as they are. *)
Theorem exitIfError_writes_every_error_then_stops (errs : list error) s :
  (exitIfError errs : M unit) s
  = match errs with
    | [] => ([], s, Done tt)
    | _ => ((error_line <$> errs) ++ stopping s, s, Exit 1)
    end.
Proof.
  destruct errs as [|e errs]; [apply exitIfError_nil|].
  by apply exitIfError_errors.
Qed.

(** X13. Once a run looks at its arguments, a first argument of the form
    p.yang makes every argument a file to read, and any other first
    argument is the name of a module (also the empty name, and a name
    that has .yang in its middle). *)
Theorem first_argument_is_a_file_iff_it_ends_in_yang flags
        (first : string) (rest : list string) :
  reaches_input formatters os flags ->
  opt_args flags = first :: rest ->
  ((∃ p, first = p +:+ ".yang") ->
   sources_of (yang flags).1 = FromFile <$> first :: rest)
  ∧ ((¬ ∃ p, first = p +:+ ".yang") ->
     sources_of (yang flags).1 = [FromModule first rest]).
Proof.
  intros (Hok & Hhelp & fm & Hfm) Hargs.
  rewrite sources_of_yang, sources_of_body, Hhelp, Hfm, Hargs by done.
  unfold spec_request.
  destruct (HasSuffix first ".yang") eqn:E.
  - split; [done|]. intros H. destruct H.
    by apply HasSuffixFacts.HasSuffix_iff.
  - split; [|done]. intros H%HasSuffixFacts.HasSuffix_iff. congruence.
Qed.

Lemma stderr_of_app l1 l2 : stderr_of (l1 ++ l2) = stderr_of l1 ++ stderr_of l2.
Proof. apply flat_map_app. Qed.

Lemma stderr_of_error_lines (errs : list error) :
  stderr_of (error_line (Entry := Entry) <$> errs)
  = (fun e => e +:+ nl) <$> errs.
Proof.
  induction errs as [|e errs IH]; [done|]. rewrite !fmap_cons.
  change (stderr_of (error_line e :: (error_line <$> errs)))
    with ((e +:+ nl) :: stderr_of (error_line (Entry := Entry) <$> errs)).
  by rewrite IH.
Qed.

Lemma stderr_of_read_log (files : list string) (ms : Modules) :
  stderr_of (read_log (Entry := Entry) files ms)
  = (fun e => e +:+ nl) <$> read_errors files ms.
Proof.
  revert ms. induction files as [|file files IH]; intros ms; [done|].
  cbn [read_log read_errors]. rewrite fmap_app, <- IH.
  change (stderr_of (?e :: ?l)) with (stderr_of [e] ++ stderr_of l).
  rewrite stderr_of_app. by destruct (Read file ms).2.
Qed.

Lemma stderr_of_tags ts l : tags_in ts l -> tStderr ∉ ts -> stderr_of l = [].
Proof.
  intros Hl Hts. unfold stderr_of.
  induction Hl as [|e l He Hl IH]; [done|].
  simpl. rewrite IH. by destruct e.
Qed.

(** X14. In a file-list run the error stream holds the errors of the
    files that could not be read, in the order of the files, followed by
    the errors of semantic processing, one per line and nothing else. *)
Theorem stderr_of_a_file_list_run flags :
  reaches_input formatters os flags ->
  spec_request (opt_args flags) = FileList (opt_args flags) ->
  stderr_of (yang flags).1
  = ((fun e => e +:+ nl) <$> read_errors (opt_args flags) NewModules)
      ++ ((fun e => e +:+ nl) <$> process_errors os (opt_args flags)).
Proof.
  intros (Hok & Hhelp & fm & Hfm) Hreq. rewrite run_eq by done. cbn [fst].
  unfold body. rewrite Hhelp, Hfm, Hreq.
  rewrite !stderr_of_app.
  rewrite (stderr_of_tags [tCreate; tStart] (trace_started flags))
    by (apply trace_started_tags || tag_notin).
  rewrite (stderr_of_tags [tStop] (trace_stopped flags))
    by (apply trace_stopped_tags || tag_notin).
  rewrite app_nil_r. cbn [app].
  destruct (opt_args flags) as [|files_0 files_1]; [done|].
  destruct (process_errors os (files_0 :: files_1)) as [|e errs];
    cbn [fst load_log]; rewrite stderr_of_app, stderr_of_read_log.
  - done.
  - f_equal. apply stderr_of_error_lines.
Qed.

End MoreLogs.

(** ** How often a run calls out *)

Section MoreCalls.

Context {Modules Module Entry : Type} {lib : YangLib Modules Module Entry}.
Variable formatters : gmap string (formatter Entry).
Variable os : OS.

Local Abbreviation event := (event Entry).
Local Abbreviation yang := (yang formatters os).
Implicit Types (l log : list event) (flags : Flags) (t : tag).

Lemma stdin_log_parse (src : string) (r : option error) :
  CallParse src r ∈ stdin_log (Entry := Entry) os ->
  src = "<STDIN>" ∧ (ReadAll_Stdin os).2 = None
  ∧ r = (Parse (ReadAll_Stdin os).1 "<STDIN>" NewModules).2.
Proof.
  unfold stdin_log, stdin_loaded.
  destruct (ReadAll_Stdin os).2; intros Hin; split_elem Hin;
    try (by apply elem_of_nil in Hin); by simplify_eq.
Qed.

(** X15. [ms.Parse] is called on standard input only: under the name
    <STDIN>, on a new model set, in a run without arguments, and only
    when standard input could be read to its end. *)
Theorem Parse_is_called_on_standard_input_only flags
        (src : string) (r : option error) :
  CallParse src r ∈ (yang flags).1 ->
  src = "<STDIN>"
  ∧ opt_args flags = []
  ∧ (ReadAll_Stdin os).2 = None
  ∧ r = (Parse (ReadAll_Stdin os).1 "<STDIN>" NewModules).2.
Proof.
  pose (ts := [tStderr; tPrintUsage; tCreate; tStart; tStop; tReadStdin;
               tRead; tGetModule; tProcess; tWrite; tFormatter]).
  intros Hin. destruct (trace_cases os flags) as [Hok|(Hno & e & He)].
  2:{ rewrite (run_trace_failed _ _ _ e) in Hin by done. absurd_elem Hin ts. }
  rewrite run_eq in Hin by done. cbn [fst] in Hin.
  apply elem_of_app in Hin as [Hin|Hin]; [absurd_elem Hin ts|].
  apply elem_of_app in Hin as [Hin|Hin]; [|absurd_elem Hin ts].
  unfold body in Hin.
  destruct (opt_help flags); [absurd_elem Hin ts|].
  destruct (formatters !! requested_format flags) as [fm|];
    [|absurd_elem Hin ts].
  unfold spec_request in Hin.
  destruct (opt_args flags) as [|files_0 files_1].
  - assert (CallParse src r ∈ stdin_log (Entry := Entry) os) as Hs.
    { destruct (stdin_loaded os).2; [|destruct (process_errors os [])];
        cbn [fst load_log] in Hin;
        apply elem_of_app in Hin as [Hin|Hin]; try done;
        absurd_elem Hin ts. }
    apply stdin_log_parse in Hs as (? & ? & ?). done.
  - destruct (HasSuffix files_0 ".yang").
    + destruct (process_errors os (files_0 :: files_1)); absurd_elem Hin ts.
    + destruct (GetModule files_0 files_1).2; absurd_elem Hin ts.
Qed.

Lemma calls_app t l1 l2 : calls t (l1 ++ l2) = (calls t l1 + calls t l2)%nat.
Proof. unfold calls. by rewrite filter_app, length_app. Qed.

Lemma calls_cons t (e : event) l :
  calls t (e :: l)
  = ((if decide (tag_of e = t) then 1 else 0) + calls t l)%nat.
Proof. unfold calls. rewrite filter_cons. by case_decide. Qed.

Lemma calls_nil t : calls t ([] : list event) = 0%nat.
Proof. done. Qed.

Lemma calls_tags ts l t : tags_in ts l -> t ∉ ts -> calls t l = 0%nat.
Proof.
  intros Hl Ht. induction Hl as [|e l He Hl IH]; [done|].
  rewrite calls_cons, IH. case_decide; [|done]. by subst t.
Qed.

Lemma calls_le_length t l : (calls t l ≤ length l)%nat.
Proof. apply length_filter. Qed.

Lemma calls_Read_read_log (files : list string) (ms : Modules) :
  calls tRead (read_log (Entry := Entry) files ms) = length files.
Proof.
  revert ms. induction files as [|file files IH]; intros ms; [done|].
  cbn [read_log]. rewrite calls_cons, calls_app, IH.
  destruct (Read file ms).2; done.
Qed.

(** Brings [calls t log] to a sum over the parts of [log]. *)
Ltac count_calls :=
  rewrite ?calls_app, ?calls_cons, ?calls_nil;
  repeat match goal with
         | |- context [calls ?t (error_line <$> ?errs)] =>
             rewrite (calls_tags [tStderr] (error_line <$> errs) t)
               by first [apply error_lines_tags | tag_notin]
         | |- context [calls ?t (help_lines ?fs ?ns)] =>
             rewrite (calls_tags [tStderr] (help_lines fs ns) t)
               by first [apply help_lines_tags | tag_notin]
         | |- context [calls tRead (read_log ?fs ?ms)] =>
             rewrite (calls_Read_read_log fs ms)
         | |- context [calls ?t (read_log ?fs ?ms)] =>
             rewrite (calls_tags [tRead; tStderr] (read_log fs ms) t)
               by first [apply read_log_tags | tag_notin]
         end;
  cbn [tag_of]; simpl; try lia.

(** X16. In one run [main] creates at most one file, starts and stops
    the trace at most once, prints the usage at most once, reads standard
    input at most once, parses at most once, resolves at most one module,
    processes the model set at most once and hands standard output to at
    most one call; it reads no more files than it has arguments. *)
Theorem every_call_is_made_at_most_once flags :
  let log := (yang flags).1 in
  (calls tCreate log ≤ 1
   ∧ calls tStart log ≤ 1
   ∧ calls tStop log ≤ 1
   ∧ calls tPrintUsage log ≤ 1
   ∧ calls tReadStdin log ≤ 1
   ∧ calls tParse log ≤ 1
   ∧ calls tGetModule log ≤ 1
   ∧ calls tProcess log ≤ 1
   ∧ calls tWrite log + calls tFormatter log ≤ 1
   ∧ calls tRead log ≤ length (opt_args flags))%nat.
Proof.
  intros log. subst log.
  destruct (trace_cases os flags) as [Hok|(Hno & e & He)].
  2:{ rewrite (run_trace_failed _ _ _ e) by done. cbn [fst].
      split_and!; count_calls. }
  rewrite run_eq by done. cbn [fst].
  unfold trace_started, trace_stopped, body, stdin_log.
  destruct (traced flags), (opt_help flags);
    try destruct (formatters !! requested_format flags) as [fm|];
    unfold spec_request;
    try destruct (opt_args flags) as [|files_0 files_1];
    try destruct (HasSuffix files_0 ".yang");
    try destruct (GetModule files_0 files_1).2;
    try destruct (stdin_loaded os).2;
    try destruct (process_errors os _);
    try destruct (ReadAll_Stdin os).2;
    cbn [fst load_log]; unfold stdin_log;
    try destruct (ReadAll_Stdin os).2;
    split_and!; count_calls.
Qed.

(** X17. In a registry that [register] filled, the help prints one line
    for each registered name, and the names on the lines are the keys, in
    strictly increasing order. *)
Theorem help_lists_every_name_once_in_order :
  keyed_by_name formatters ->
  ∃ fms : list (formatter Entry),
    help_lines formatters (registered_formats formatters) = help_line <$> fms
    ∧ name <$> fms = registered_formats formatters
    ∧ StronglySorted lt (name <$> fms)
    ∧ ∀ n, n ∈ name <$> fms ↔ is_Some (formatters !! n).
Proof.
  intros Hkeyed.
  destruct (help_lines_registered formatters) as (fms & Hlines & Hall).
  assert (∀ fns fms',
            Forall2 (fun fn fm => formatters !! fn = Some fm) fns fms' ->
            name <$> fms' = fns) as Hgen.
  { induction 1 as [|fn fm fns fms' Hfm _ IH]; [done|].
    rewrite fmap_cons. f_equal; [by apply Hkeyed|done]. }
  pose proof (Hgen _ _ Hall) as Hnames.
  exists fms. rewrite Hnames. split_and!; [done|done| |].
  - apply registered_formats_sorted.
  - apply elem_of_registered_formats.
Qed.

End MoreCalls.

(** ** The further properties at work in the small world *)

Section DemoExtras.

Import Demo.

Local Abbreviation event := (event entry).

Ltac here := apply list_elem_of_In; vm_compute; tauto.

(** X3 at work: tree and types, registered in either order. *)
Lemma registration_order_witness :
  (NoDup (name <$> [tree; types]) ∧ [tree; types] ≡ₚ [types; tree])
  ∧ register_all [tree; types] formatters_init
    = register_all [types; tree] formatters_init.
Proof.
  assert (NoDup (name <$> [tree; types])) as H1
    by (apply (bool_decide_unpack _); vm_compute; exact I).
  assert ([tree; types] ≡ₚ [types; tree]) as H2 by apply perm_swap.
  split; [done|].
  exact (registration_order_is_irrelevant [tree; types] [types; tree]
           formatters_init H1 H2).
Defined.

(** X4 at work: a trace file outside /tmp, with [--help] and arguments. *)
Lemma unwritable_trace_witness :
  let fl := flags (Some "types") "/root/trace" true ["a.yang"] in
  let e := "open /root/trace: permission denied" in
  (opt_trace fl ≠ "" ∧ os_Create (os "" None) (opt_trace fl) = Some e)
  ∧ demo "" None fl = ([Create "/root/trace" (Some e); error_line e], Exited 1).
Proof.
  intros fl e.
  assert (opt_trace fl ≠ "") as H1 by discriminate.
  assert (os_Create (os "" None) (opt_trace fl) = Some e) as H2
    by (vm_compute; reflexivity).
  split; [done|].
  destruct (unwritable_trace_is_terminal (lib := lib) formatters (os "" None)
              fl e H1 H2) as [H _].
  exact H.
Defined.

(** X5 at work. *)
Lemma no_trace_witness :
  let fl := flags None "" false ["a.yang"; "nope.yang"] in
  opt_trace fl = ""
  ∧ tags_in [tStderr; tPrintUsage; tReadStdin; tParse; tRead; tGetModule;
             tProcess; tWrite; tFormatter] (demo "" None fl).1.
Proof.
  intros fl. split; [reflexivity|].
  exact (no_trace_without_the_flag (lib := lib) formatters (os "" None) fl
           eq_refl).
Defined.

(** X6 at work: the same run with and without a trace. *)
Lemma tracing_is_transparent_witness :
  let fl := flags None "/tmp/trace" false ["broken.yang"] in
  trace_ok (os "" None) fl
  ∧ demo "" None fl
    = ([Create "/tmp/trace" None; trace_Start]
         ++ (demo "" None (without_trace fl)).1 ++ [trace_Stop],
       (demo "" None (without_trace fl)).2).
Proof.
  intros fl.
  assert (trace_ok (os "" None) fl) as H by (right; vm_compute; reflexivity).
  split; [exact H|].
  exact (tracing_is_transparent (lib := lib) formatters (os "" None) fl H).
Defined.

(** X7 at work: the help, a file that does not pass processing, and a
    file that is displayed. *)
Lemma exit_status_witness :
  let fl1 := flags None "" true ["a.yang"] in
  let fl2 := flags None "" false ["broken.yang"] in
  let fl3 := flags None "" false ["a.yang"] in
  ((demo "" None fl1).2 = Exited 0
   ∧ opt_help fl1 = true ∧ trace_ok (os "" None) fl1)
  ∧ ((demo "" None fl2).2 = Exited 1 ∧ (1 = 0 ∨ 1 = 1)%Z)
  ∧ ((demo "" None fl3).2 = Returned ∧ outputs (demo "" None fl3).1 ≠ []).
Proof.
  intros fl1 fl2 fl3.
  assert ((demo "" None fl1).2 = Exited 0) as H1 by (vm_compute; reflexivity).
  assert ((demo "" None fl2).2 = Exited 1) as H2 by (vm_compute; reflexivity).
  assert ((demo "" None fl3).2 = Returned) as H3 by (vm_compute; reflexivity).
  split; [|split].
  - destruct (exit_status_is_0_or_1 (lib := lib) formatters (os "" None) fl1)
      as (_ & H & _).
    split; [exact H1|]. exact (proj1 H H1).
  - destruct (exit_status_is_0_or_1 (lib := lib) formatters (os "" None) fl2)
      as (H & _ & _).
    split; [exact H2|]. exact (H 1%Z H2).
  - destruct (exit_status_is_0_or_1 (lib := lib) formatters (os "" None) fl3)
      as (_ & _ & H).
    split; [exact H3|]. exact (H H3).
Defined.

(** X8 at work: the format xml, with and without [--help]. *)
Lemma unregistered_format_witness :
  let fl := flags (Some "xml") "" false ["a.yang"] in
  formatters !! requested_format fl = None
  ∧ sources_of (demo "" None fl).1 = []
  ∧ outputs (demo "" None fl).1 = []
  ∧ (demo "" None fl).2 = Exited 1.
Proof.
  intros fl.
  assert (formatters !! requested_format fl = None) as H
    by (vm_compute; reflexivity).
  destruct (unregistered_format_reads_nothing (lib := lib) formatters
              (os "" None) fl H) as (H1 & H2 & H3).
  split_and!; [exact H|exact H1|exact H2|exact (H3 eq_refl)].
Defined.

(** X9 at work: the module gamma, asked for as tree and as types. *)
Lemma named_module_format_witness :
  (is_Some (formatters !! "tree") ∧ is_Some (formatters !! "types")
   ∧ spec_request ["gamma"; "a.yang"] = NamedModule "gamma" ["a.yang"])
  ∧ demo "" None (flags (Some "tree") "" false ["gamma"; "a.yang"])
    = demo "" None (flags (Some "types") "" false ["gamma"; "a.yang"]).
Proof.
  assert (is_Some (formatters !! "tree")) as H1
    by (exists tree; vm_compute; reflexivity).
  assert (is_Some (formatters !! "types")) as H2
    by (exists types; vm_compute; reflexivity).
  assert (spec_request ["gamma"; "a.yang"] = NamedModule "gamma" ["a.yang"])
    as H3 by (vm_compute; reflexivity).
  split; [done|].
  exact (named_module_run_ignores_the_format (lib := lib) formatters
           (os "" None) "tree" "types" "" ["gamma"; "a.yang"] "gamma"
           ["a.yang"] H1 H2 H3).
Defined.

(** X10 at work: alpha of b.yang comes after alpha of a.yang. *)
Lemma later_modules_witness :
  let l := [ {| m_name := "beta"; m_file := "a.yang" |};
             {| m_name := "alpha"; m_file := "a.yang" |} ] in
  let l' := [ {| m_name := "alpha"; m_file := "b.yang" |} ] in
  (∀ m, m ∈ l' -> m_name m ∈ m_name <$> l)
  ∧ top_entries (lib := lib) (l ++ l') = top_entries (lib := lib) l.
Proof.
  intros l l'.
  assert (∀ m, m ∈ l' -> m_name m ∈ m_name <$> l) as H.
  { intros m Hin. apply list_elem_of_In in Hin.
    destruct Hin as [<-|[]]. here. }
  split; [exact H|].
  exact (later_modules_of_known_names_are_ignored (lib := lib) l l' H).
Defined.

(** X11 at work. *)
Lemma distinct_names_witness :
  let l := [ {| m_name := "beta"; m_file := "a.yang" |};
             {| m_name := "alpha"; m_file := "a.yang" |} ] in
  NoDup (m_name <$> l)
  ∧ top_entries (lib := lib) l ≡ₚ (fun m => to_entry (Some m)) <$> l.
Proof.
  intros l.
  assert (NoDup (m_name <$> l)) as H
    by (apply (bool_decide_unpack _); vm_compute; exact I).
  split; [exact H|].
  exact (modules_of_distinct_names_are_all_displayed (lib := lib) l H).
Defined.

(** X13 at work: a.yang is a file, gamma and a.yang.txt are modules. *)
Lemma first_argument_witness :
  let fl1 := flags None "" false ["a.yang"; "b.yang"] in
  let fl2 := flags None "" false ["a.yang.txt"; "b.yang"] in
  (reaches_input formatters (os "" None) fl1
   ∧ (∃ p, "a.yang" = p +:+ ".yang")
   ∧ sources_of (demo "" None fl1).1 = [FromFile "a.yang"; FromFile "b.yang"])
  ∧ (reaches_input formatters (os "" None) fl2
     ∧ (¬ ∃ p, "a.yang.txt" = p +:+ ".yang")
     ∧ sources_of (demo "" None fl2).1 = [FromModule "a.yang.txt" ["b.yang"]]).
Proof.
  intros fl1 fl2.
  assert (∀ fl, opt_trace fl = "" -> opt_help fl = false ->
            opt_format fl = None ->
            reaches_input formatters (os "" None) fl) as Hreach.
  { intros fl Ht Hh Hf. split_and!; [by left|done|].
    exists tree. unfold requested_format. rewrite Hf. vm_compute.
    reflexivity. }
  assert (∃ p, "a.yang" = p +:+ ".yang") as H1 by (by exists "a").
  assert (¬ ∃ p, "a.yang.txt" = p +:+ ".yang") as H2.
  { intros H%HasSuffixFacts.HasSuffix_iff. vm_compute in H. discriminate. }
  split; (split; [by apply Hreach|]); (split; [done|]).
  - destruct (first_argument_is_a_file_iff_it_ends_in_yang (lib := lib)
                formatters (os "" None) fl1 "a.yang" ["b.yang"]
                (Hreach fl1 eq_refl eq_refl eq_refl) eq_refl) as [H _].
    exact (H H1).
  - destruct (first_argument_is_a_file_iff_it_ends_in_yang (lib := lib)
                formatters (os "" None) fl2 "a.yang.txt" ["b.yang"]
                (Hreach fl2 eq_refl eq_refl eq_refl) eq_refl) as [_ H].
    exact (H H2).
Defined.

(** X14 at work: one file cannot be read, another does not pass
    processing. *)
Lemma stderr_witness :
  let fl := flags None "" false ["nope.yang"; "broken.yang"] in
  (reaches_input formatters (os "" None) fl
   ∧ spec_request (opt_args fl) = FileList (opt_args fl))
  ∧ stderr_of (demo "" None fl).1
    = ["open nope.yang: no such file or directory" +:+ nl;
       "broken: unknown import" +:+ nl;
       "broken: unknown type" +:+ nl].
Proof.
  intros fl.
  assert (reaches_input formatters (os "" None) fl) as H1.
  { split_and!; [by left|done|]. exists tree. vm_compute. reflexivity. }
  assert (spec_request (opt_args fl) = FileList (opt_args fl)) as H2
    by (vm_compute; reflexivity).
  split; [done|].
  exact (stderr_of_a_file_list_run (lib := lib) formatters (os "" None) fl
           H1 H2).
Defined.

(** X15 at work: standard input holds one module. *)
Lemma Parse_witness :
  let fl := flags None "" false [] in
  CallParse "<STDIN>" None ∈ (demo "module delta {}" None fl).1
  ∧ opt_args fl = []
  ∧ (ReadAll_Stdin (os "module delta {}" None)).2 = None.
Proof.
  intros fl.
  assert (CallParse "<STDIN>" None ∈ (demo "module delta {}" None fl).1)
    as H by here.
  destruct (Parse_is_called_on_standard_input_only (lib := lib) formatters
              (os "module delta {}" None) fl "<STDIN>" None H)
    as (_ & H1 & H2 & _).
  split_and!; [exact H|exact H1|exact H2].
Defined.

(** X17 at work: the registry of tree and types. *)
Lemma help_lists_witness :
  keyed_by_name formatters
  ∧ ∃ fms : list (formatter entry),
      help_lines formatters (registered_formats formatters) = help_line <$> fms
      ∧ name <$> fms = registered_formats formatters
      ∧ StronglySorted lt (name <$> fms)
      ∧ ∀ n, n ∈ name <$> fms ↔ is_Some (formatters !! n).
Proof.
  assert (keyed_by_name formatters) as H
    by (do 2 apply keyed_by_name_register; apply keyed_by_name_init).
  split; [exact H|].
  exact (help_lists_every_name_once_in_order formatters H).
Defined.

End DemoExtras.
